(** * libmat2.abstract: the parser contract

    A shallow embedding of [libmat2/abstract.py] (class [AbstractParser])
    together with the small part of the Python runtime its methods call:
    [str] slicing and [rfind], [re.search] for an anchored bracket
    expression, [os.path.join] and [os.path.splitext] (POSIX flavour),
    and a file-system model for [shutil.move], [os.remove],
    [tempfile.mkstemp] and [os.close].

    Python [str] values are modelled as [string]; the characters the code
    inspects ('.', '/', the ranges a-z and 0-9, the NUL character) are all
    ASCII, and in a UTF-8 rendering of a path no byte of a non-ASCII
    character collides with them. *)

From Stdlib Require Import ZArith Ascii String Bool List Lia.
From stdpp Require Import base gmap strings.

Local Open Scope Z_scope.

(* ===================================================================== *)
(** ** Python [str] primitives *)
(* ===================================================================== *)

Module Str.

(** [len(s)] *)
Definition len (s : string) : Z := Z.of_nat (String.length s).

(** [c in s], for a one-character [c]. *)
Fixpoint contains (s : string) (c : ascii) : bool :=
  match s with
  | EmptyString => false
  | String x s' => Ascii.eqb x c || contains s' c
  end.

(** [s.rfind(c)] for a one-character [c]: the highest index holding [c],
    or [-1]. *)
Fixpoint rfind (s : string) (c : ascii) : Z :=
  match s with
  | EmptyString => -1
  | String x s' =>
      let r := rfind s' c in
      if 0 <=? r then r + 1
      else if Ascii.eqb x c then 0 else -1
  end.

Fixpoint first_n (n : nat) (s : string) : string :=
  match n, s with
  | S n', String x s' => String x (first_n n' s')
  | _, _ => EmptyString
  end.

Fixpoint skip_n (n : nat) (s : string) : string :=
  match n, s with
  | S n', String _ s' => skip_n n' s'
  | _, _ => s
  end.

(** How Python turns a slice bound into a position: a negative bound
    counts from the end, and every bound is clipped to [0, len]. *)
Definition bound (n i : Z) : Z :=
  if i <? 0 then Z.max (n + i) 0 else Z.min i n.

(** [s[i:j]] *)
Definition slice (s : string) (i j : Z) : string :=
  let a := bound (len s) i in
  let b := bound (len s) j in
  first_n (Z.to_nat (b - a)) (skip_n (Z.to_nat a) s).

(** [s[:j]] *)
Definition slice_to (s : string) (j : Z) : string := slice s 0 j.

(** [s[i:]] *)
Definition slice_from (s : string) (i : Z) : string := slice s i (len s).

(** [s.startswith(c)] and [s.endswith(c)] for a one-character [c]. *)
Definition startswith (s : string) (c : ascii) : bool :=
  String.eqb (slice_to s 1) (String c EmptyString).

Definition endswith (s : string) (c : ascii) : bool :=
  negb (String.eqb s EmptyString)
  && String.eqb (slice_from s (len s - 1)) (String c EmptyString).

(** [s.rstrip(c)] for a one-character [c]. *)
Fixpoint rstrip (s : string) (c : ascii) : string :=
  match s with
  | EmptyString => EmptyString
  | String x s' =>
      match rstrip s' c with
      | EmptyString => if Ascii.eqb x c then EmptyString else String x EmptyString
      | rest => String x rest
      end
  end.

End Str.

(* ===================================================================== *)
(** ** [re.search] for the pattern of the constructor *)
(* ===================================================================== *)

Module Re.

(** One member of a bracket expression. *)
Inductive class_item : Type :=
| Range (lo hi : ascii)
| Lit (c : ascii).

Definition item_matches (i : class_item) (c : ascii) : bool :=
  match i with
  | Range lo hi =>
      (N_of_ascii lo <=? N_of_ascii c)%N && (N_of_ascii c <=? N_of_ascii hi)%N
  | Lit x => Ascii.eqb x c
  end.

Definition class_matches (cls : list class_item) (c : ascii) : bool :=
  existsb (fun i => item_matches i c) cls.

(** [re.search('^[...]', s)]: without [re.MULTILINE] the anchor only holds
    at position 0, so the search succeeds exactly when the first character
    is in the class; the match object is represented by the matched text. *)
Definition search_anchored (cls : list class_item) (s : string) : option string :=
  match s with
  | EmptyString => None
  | String c _ =>
      if class_matches cls c then Some (String c EmptyString) else None
  end.

(** The bracket expression [[a-z0-9./]]. *)
Definition safe_first : list class_item :=
  [Range "a" "z"; Range "0" "9"; Lit "."; Lit "/"]%char.

End Re.

(* ===================================================================== *)
(** ** [os.path] (posixpath) *)
(* ===================================================================== *)

Module PosixPath.
Import Str.

Definition sep : ascii := "/"%char.
Definition extsep : ascii := "."%char.

(** [os.path.join(a, b)] *)
Definition join (a b : string) : string :=
  if startswith b sep then b
  else if String.eqb a EmptyString || endswith a sep then a +:+ b
  else a +:+ String sep EmptyString +:+ b.

(** The [while filenameIndex < dotIndex] loop of [genericpath._splitext];
    [n] bounds the number of iterations and is [dotIndex - filenameIndex]
    on entry. Leaving the loop falls through to [return p, p[:0]]. *)
Fixpoint skip_leading_dots (n : nat) (p : string) (dotIndex filenameIndex : Z)
  : string * string :=
  match n with
  | O => (p, slice_to p 0)
  | S n' =>
      if filenameIndex <? dotIndex then
        if negb (String.eqb (slice p filenameIndex (filenameIndex + 1))
                            (String extsep EmptyString))
        then (slice_to p dotIndex, slice_from p dotIndex)
        else skip_leading_dots n' p dotIndex (filenameIndex + 1)
      else (p, slice_to p 0)
  end.

(** [os.path.splitext(p)]; posixpath has no [altsep]. *)
Definition splitext (p : string) : string * string :=
  let sepIndex := rfind p sep in
  let dotIndex := rfind p extsep in
  if dotIndex >? sepIndex then
    let filenameIndex := sepIndex + 1 in
    skip_leading_dots (Z.to_nat (dotIndex - filenameIndex)) p dotIndex filenameIndex
  else (p, slice_to p 0).

(** [os.path.basename(p)] *)
Definition basename (p : string) : string :=
  let i := rfind p sep + 1 in
  slice_from p i.

End PosixPath.

(* ===================================================================== *)
(** ** Exceptions and results *)
(* ===================================================================== *)

(** The subclasses of [OSError] that the modelled system calls raise. *)
Inductive os_errno : Type :=
| ENOENT   (* FileNotFoundError *)
| EEXIST   (* FileExistsError *)
| EACCES   (* PermissionError *)
| EXDEV
| ENOSPC
| EBADF
| EIO
| NoErrno.  (* shutil.Error and SameFileError, which carry no errno *)

Inductive exn : Type :=
| OSError (e : os_errno) (msg : string)
| ValueError (msg : string)
| RuntimeError (msg : string).

(** [isinstance(e, OSError)] *)
Definition is_OSError (e : exn) : bool :=
  match e with OSError _ _ => true | _ => false end.

(** [str(e)] *)
Definition str_of_exn (e : exn) : string :=
  match e with OSError _ m | ValueError m | RuntimeError m => m end.

Inductive Result (A : Type) : Type :=
| Ok (a : A)
| Raise (e : exn).
Arguments Ok {A} a.
Arguments Raise {A} e.


(* ===================================================================== *)
(** ** The world outside the interpreter *)
(* ===================================================================== *)

(** What [print] receives. *)
Inductive pyobj : Type :=
| PStr (s : string)
| PExn (e : exn)
| PTuple2 (a b : pyobj).

(** What the process asked of the operating system, in order. *)
Inductive event : Type :=
| SysMove (src dst : string)
| SysRemove (path : string)
| SysOpen (path : string)
| SysClose (fd : nat)
| Stdout (args : list pyobj).

(** Files are keyed by the path string they were created under; a file is
    its content. Two spellings of a path are two keys; links are not
    modelled, and whether the destination of a move is a directory is an
    answer of the environment. *)
Record World : Type := mkWorld {
  fs : gmap string string;
  open_fds : gset nat;
  log : list event
}.

(** How the copy that [shutil.move] falls back on can fail: before the
    destination is opened for writing, or after it was truncated and only
    the first [kept] characters of the source were written ([kept] at least
    the length of the source stands for a failure after the last write). *)
Inductive copy_failure : Type :=
| CopyRefused (e : os_errno)
| CopyCutShort (e : os_errno) (kept : nat).

(** What the system answers to the steps of one [shutil.move]: whether the
    destination is a directory, whether [os.rename] raises, how the copy
    fails if it is reached, and whether [os.unlink] of the source raises
    after the copy. *)
Record move_answers : Type := mkMoveAnswers {
  dst_is_dir : bool;
  rename_fault : option os_errno;
  copy_fault : option copy_failure;
  unlink_fault : option os_errno
}.

(** What the environment decides on behalf of the code: the temporary
    directory, the random draws behind temporary names, and whether the
    operating system refuses a call that would otherwise go through
    (permissions, another device, a full disk). *)
Record Env : Type := mkEnv {
  tmpdir : string;
  draws : list (list nat);
  open_fault : option os_errno;
  move_fault : move_answers;
  remove_fault : option os_errno
}.

Module OS.
Import Str PosixPath.

Definition NUL : ascii := Ascii.zero.

Definition record (e : event) (w : World) : World :=
  {| fs := fs w; open_fds := open_fds w; log := log w ++ [e] |}.

Definition with_fs (f : gmap string string) (w : World) : World :=
  {| fs := f; open_fds := open_fds w; log := log w |}.

(** [print] of the given arguments. Standard output is taken to accept
    every message: a closed or non-encoding stream is not modelled. *)
Definition print (args : list pyobj) (w : World) : Result unit * World :=
  (Ok tt, record (Stdout args) w).

(** [shutil._basename(path)] *)
Definition _basename (path : string) : string :=
  basename (rstrip path sep).

(** The system lets every step of a move through, onto a file path. *)
Definition moves_through : move_answers :=
  {| dst_is_dir := false; rename_fault := None;
     copy_fault := None; unlink_fault := None |}.

(** The system refuses the rename and then the copy, before anything is
    written. *)
Definition move_refused (e : os_errno) : move_answers :=
  {| dst_is_dir := false; rename_fault := Some e;
     copy_fault := Some (CopyRefused e); unlink_fault := None |}.

(** The [try: os.rename(src, real_dst) except OSError: copy2(src, real_dst);
    os.unlink(src)] of [shutil.move], for a source that is a file or is
    missing. A rename that is not refused still raises when the source is
    missing, and then the copy cannot open it either; the copy refuses a
    source and a destination that are the same file. *)
Definition move_file (o : move_answers) (src real_dst : string) (w : World)
  : Result string * World :=
  match fs w !! src with
  | None => (Raise (OSError ENOENT src), w)
  | Some content =>
      match rename_fault o with
      | None =>
          (Ok real_dst, with_fs (<[real_dst := content]> (delete src (fs w))) w)
      | Some _ =>
          if String.eqb src real_dst then
            (Raise (OSError NoErrno "are the same file"), w)
          else
            match copy_fault o with
            | Some (CopyRefused e) => (Raise (OSError e real_dst), w)
            | Some (CopyCutShort e kept) =>
                (Raise (OSError e real_dst),
                 with_fs (<[real_dst := first_n kept content]> (fs w)) w)
            | None =>
                let w1 := with_fs (<[real_dst := content]> (fs w)) w in
                match unlink_fault o with
                | Some e => (Raise (OSError e src), w1)
                | None => (Ok real_dst, with_fs (delete src (fs w1)) w1)
                end
            end
      end
  end.

(** [shutil.move(src, dst)] for a source that is a file or is missing. When
    the destination is a directory the source goes inside it, under its own
    base name, unless that path exists. Otherwise the source is renamed
    onto the destination, and when the rename raises an [OSError] it is
    copied there and then removed, so that the call can raise after the
    destination was overwritten or truncated. A NUL in a path makes
    [os.rename] raise a [ValueError], which is not caught. *)
Definition shutil_move (o : move_answers) (src dst : string) (w : World)
  : Result string * World :=
  let w := record (SysMove src dst) w in
  if contains src NUL || contains dst NUL then
    (Raise (ValueError "embedded null byte"), w)
  else if dst_is_dir o then
    let real_dst := join dst (_basename src) in
    match fs w !! real_dst with
    | Some _ => (Raise (OSError NoErrno "Destination path already exists"), w)
    | None => move_file o src real_dst w
    end
  else move_file o src dst w.

(** [os.remove(path)] *)
Definition os_remove (fault : option os_errno) (path : string) (w : World)
  : Result unit * World :=
  let w := record (SysRemove path) w in
  if contains path NUL then (Raise (ValueError "embedded null byte"), w)
  else
    match fs w !! path with
    | None => (Raise (OSError ENOENT path), w)
    | Some _ =>
        match fault with
        | Some e => (Raise (OSError e path), w)
        | None => (Ok tt, with_fs (delete path (fs w)) w)
        end
    end.

(** [os.open(file, O_RDWR | O_CREAT | O_EXCL, 0o600)] *)
Definition os_open_excl (fault : option os_errno) (file : string) (w : World)
  : Result nat * World :=
  let w := record (SysOpen file) w in
  if contains file NUL then (Raise (ValueError "embedded null byte"), w)
  else
    match fs w !! file with
    | Some _ => (Raise (OSError EEXIST file), w)
    | None =>
        match fault with
        | Some e => (Raise (OSError e file), w)
        | None =>
            let fd := fresh (open_fds w) in
            (Ok fd, {| fs := <[file := EmptyString]> (fs w);
                       open_fds := {[fd]} ∪ open_fds w;
                       log := log w |})
        end
    end.

(** [os.close(fd)] *)
Definition os_close (fd : nat) (w : World) : Result unit * World :=
  let w := record (SysClose fd) w in
  if decide (fd ∈ open_fds w) then
    (Ok tt, {| fs := fs w; open_fds := open_fds w ∖ {[fd]}; log := log w |})
  else (Raise (OSError EBADF "Bad file descriptor"), w).

End OS.

(* ===================================================================== *)
(** ** [tempfile.mkstemp] *)
(* ===================================================================== *)

Module Tempfile.
Import Str PosixPath OS.

(** [os.TMP_MAX] on Linux. *)
Definition TMP_MAX : nat := Z.to_nat 238328.

(** [_RandomNameSequence.characters] *)
Definition characters : string := "abcdefghijklmnopqrstuvwxyz0123456789_".

(** [''.join(rng.choices(characters, k=8))], the draw being the positions
    the generator picked. *)
Fixpoint choices (population : string) (draw : list nat) : string :=
  match draw with
  | [] => EmptyString
  | i :: rest =>
      slice population (Z.of_nat (i mod String.length population))
                       (Z.of_nat (i mod String.length population) + 1)
      +:+ choices population rest
  end.

(** The [for seq in range(TMP_MAX)] loop of [_mkstemp_inner]: a name that
    exists is skipped, any other error is raised. *)
Fixpoint mkstemp_inner (dir pre suf : string) (fault : option os_errno)
    (names : list string) (w : World) : Result (nat * string) * World :=
  match names with
  | [] => (Raise (OSError EEXIST "No usable temporary file name found"), w)
  | name :: rest =>
      let file := join dir (pre +:+ name +:+ suf) in
      match os_open_excl fault file w with
      | (Ok fd, w') => (Ok (fd, file), w')
      | (Raise (OSError EEXIST _), w') => mkstemp_inner dir pre suf fault rest w'
      | (Raise e, w') => (Raise e, w')
      end
  end.

(** The names the loop gets to try: at most [TMP_MAX] draws. *)
Definition candidate_names (env : Env) : list string :=
  List.firstn TMP_MAX (List.map (choices characters) (draws env)).

(** [tempfile.mkstemp(suffix=suffix)]: prefix ["tmp"], directory
    [gettempdir()]. *)
Definition mkstemp (env : Env) (suffix : string) (w : World)
  : Result (nat * string) * World :=
  mkstemp_inner (tmpdir env) "tmp" suffix (open_fault env)
    (candidate_names env) w.

End Tempfile.

(* ===================================================================== *)
(** ** The instance and its methods *)
(* ===================================================================== *)

Record Instance : Type := mkInstance {
  filename : string;
  output_filename : string;
  lightweight_cleaning : bool;
  in_place : bool
}.

Module AbstractParser.
Import Str PosixPath OS Tempfile.

(** [AbstractParser.__init__]. The body has no [raise] and calls nothing
    that raises on a [str]; the result type keeps the place where the
    [ValueError] of a concrete handler would appear. *)
Definition __init__ (filename : string) : Result Instance :=
  let filename :=
    match Re.search_anchored Re.safe_first filename with
    | None => join "." filename
    | Some _ => filename
    end in
  let '(fname, extension) := splitext filename in
  Ok {| filename := filename;
        output_filename := fname +:+ ".cleaned" +:+ extension;
        lightweight_cleaning := false;
        in_place := false |}.

(** [try: body except <class> as e: handler(e)] *)
Definition try_except {A : Type} (body : World -> Result A * World)
    (catches : exn -> bool) (handler : exn -> World -> Result A * World)
    (w : World) : Result A * World :=
  match body w with
  | (Ok a, w') => (Ok a, w')
  | (Raise e, w') => if catches e then handler e w' else (Raise e, w')
  end.

(** [except Exception]: every modelled exception is an [Exception]. *)
Definition is_Exception (_ : exn) : bool := true.

(** A statement whose value is dropped. *)
Definition discard {A : Type} (m : World -> Result A * World) (w : World)
  : Result unit * World :=
  match m w with
  | (Ok _, w') => (Ok tt, w')
  | (Raise e, w') => (Raise e, w')
  end.

(** [m1; m2] *)
Definition seq (m1 m2 : World -> Result unit * World) (w : World)
  : Result unit * World :=
  match m1 w with
  | (Ok _, w') => m2 w'
  | (Raise e, w') => (Raise e, w')
  end.

(** [AbstractParser.__del__]. The second [print] is given the format
    string and the tuple as two arguments, as the source writes it. *)
Definition __del__ (env : Env) (self : Instance) (w : World)
  : Result unit * World :=
  if in_place self then
    try_except
      (discard (shutil_move (move_fault env) (output_filename self) (filename self)))
      is_Exception
      (fun e =>
         seq (print [PStr ("[-] " +:+ filename self +:+ " was NOT cleaned: "
                           +:+ str_of_exn e)])
             (try_except
                (os_remove (remove_fault env) (output_filename self))
                is_OSError
                (fun e =>
                   print [PStr "[-] could not remove temporary file %s: %s";
                          PTuple2 (PStr (output_filename self)) (PExn e)])))
      w
  else (Ok tt, w).

(** [AbstractParser.set_edit_in_place]; the instance after the call is
    returned next to the outcome, since the assignments made before an
    exception stay. *)
Definition set_edit_in_place (env : Env) (self : Instance) (w : World)
  : Result unit * Instance * World :=
  let '(_, ext) := splitext (filename self) in
  match mkstemp env ext w with
  | (Raise e, w1) => (Raise e, self, w1)
  | (Ok (fd, path), w1) =>
      let self1 := {| filename := filename self;
                      output_filename := path;
                      lightweight_cleaning := lightweight_cleaning self;
                      in_place := in_place self |} in
      let self2 := {| filename := filename self1;
                      output_filename := output_filename self1;
                      lightweight_cleaning := lightweight_cleaning self1;
                      in_place := true |} in
      match os_close fd w1 with
      | (Raise e, w2) => (Raise e, self2, w2)
      | (Ok _, w2) => (Ok tt, self2, w2)
      end
  end.

(** [self.lightweight_cleaning = b] *)
Definition set_lightweight_cleaning (b : bool) (self : Instance) : Instance :=
  {| filename := filename self;
     output_filename := output_filename self;
     lightweight_cleaning := b;
     in_place := in_place self |}.

(** The operations a caller performs on an instance; [External] is
    anything else that happens to the file system in between (the
    concrete handler's [get_meta] and [remove_all], other processes). *)
Inductive op : Type :=
| SetEditInPlace (env : Env)
| SetLightweight (b : bool)
| Finalize (env : Env)
| External (f : World -> World).

Definition step (st : Instance * World) (o : op) : Instance * World :=
  let '(self, w) := st in
  match o with
  | SetEditInPlace env =>
      let '(_, self', w') := set_edit_in_place env self w in (self', w')
  | SetLightweight b => (set_lightweight_cleaning b self, w)
  | Finalize env => (self, snd (__del__ env self w))
  | External f => (self, f w)
  end.

Definition run (ops : list op) (st : Instance * World) : Instance * World :=
  List.fold_left step ops st.

End AbstractParser.

(* ===================================================================== *)
(** ** Vocabulary of the statements *)
(* ===================================================================== *)

(** A lowercase ASCII letter, an ASCII digit, ['.'] or ['/']. *)
Definition first_char_ok (c : ascii) : Prop :=
  (97 <= N_of_ascii c <= 122)%N \/ (48 <= N_of_ascii c <= 57)%N
  \/ c = "."%char \/ c = "/"%char.

(** The name the constructor stores for a path. *)
Definition sanitize (path : string) : string :=
  match Re.search_anchored Re.safe_first path with
  | None => PosixPath.join "." path
  | Some _ => path
  end.

(** The one-character string ["."]. *)
Definition dot : string := String PosixPath.extsep EmptyString.

(** The extension of a path. *)
Definition ext_of (p : string) : string := snd (PosixPath.splitext p).

(** The output name ends with the extension of the file name, and when
    that extension is not empty it is the extension of the output name. *)
Definition ext_derived (p : Instance) : Prop :=
  (exists stem, output_filename p = stem +:+ ext_of (filename p))
  /\ (ext_of (filename p) <> EmptyString ->
      ext_of (output_filename p) = ext_of (filename p)).


(** A sequence of operations without [set_edit_in_place]. *)
Definition never_requested (ops : list AbstractParser.op) : bool :=
  forallb (fun o => match o with AbstractParser.SetEditInPlace _ => false | _ => true end)
          ops.

(** What a sequence of operations does to the world when only its
    [External] steps count. *)
Definition externals (ops : list AbstractParser.op) (w : World) : World :=
  List.fold_left
    (fun w o => match o with AbstractParser.External f => f w | _ => w end) ops w.

(** The two messages of the end-of-life handler. *)
Definition not_cleaned_report (self : Instance) (e : exn) : event :=
  Stdout [PStr ("[-] " +:+ filename self +:+ " was NOT cleaned: " +:+ str_of_exn e)].

Definition not_removed_report (self : Instance) (e : exn) : event :=
  Stdout [PStr "[-] could not remove temporary file %s: %s";
          PTuple2 (PStr (output_filename self)) (PExn e)].

(** Concrete situations used to exercise the statements. *)
Module Demo.

(** A photo in the working directory, the three standard descriptors. *)
Definition world : World :=
  {| fs := {[ "photo.jpg" := "JFIF+comment" ]};
     open_fds := {[ 0%nat; 1%nat; 2%nat ]};
     log := [] |}.

(** A cooperative system. *)
Definition env : Env :=
  {| tmpdir := "/tmp";
     draws := [[19; 4; 12; 15; 30; 31; 32; 36]%nat];
     open_fault := None; move_fault := OS.moves_through; remove_fault := None |}.

(** The move is refused. *)
Definition env_move_denied : Env :=
  {| tmpdir := "/tmp"; draws := [];
     open_fault := None;
     move_fault := OS.move_refused EACCES;
     remove_fault := None |}.

(** The move and the removal are both refused. *)
Definition env_all_denied : Env :=
  {| tmpdir := "/tmp"; draws := [];
     open_fault := None;
     move_fault := OS.move_refused EACCES;
     remove_fault := Some EACCES |}.

(** The instance for ["photo.jpg"] as the constructor leaves it. *)
Definition constructed : Instance :=
  {| filename := "photo.jpg";
     output_filename := "photo.cleaned.jpg";
     lightweight_cleaning := false;
     in_place := false |}.

(** The same instance once [set_edit_in_place] has run in [world]. *)
Definition requested : Instance :=
  {| filename := "photo.jpg";
     output_filename := "/tmp/tmptemp456_.jpg";
     lightweight_cleaning := false;
     in_place := true |}.

(** [world] after [set_edit_in_place] and after the concrete handler wrote
    the cleaned picture to the temporary file. *)
Definition world_cleaned : World :=
  {| fs := {[ "photo.jpg" := "JFIF+comment"; "/tmp/tmptemp456_.jpg" := "JFIF" ]};
     open_fds := {[ 0%nat; 1%nat; 2%nat ]};
     log := [SysOpen "/tmp/tmptemp456_.jpg"; SysClose 3] |}.

End Demo.

(** *** Further vocabulary *)

(** [n] dots in a row. *)
Fixpoint dots (n : nat) : string :=
  match n with
  | O => EmptyString
  | S n' => String PosixPath.extsep (dots n')
  end.

(** The directory part of a path: nothing, or something that ends with the
    separator. *)
Definition is_dir_prefix (u : string) : Prop :=
  u = EmptyString \/ exists d, u = d +:+ String PosixPath.sep EmptyString.

(** Two instances that agree on everything but the lightweight flag. *)
Definition same_but_flag (p q : Instance) : Prop :=
  filename p = filename q
  /\ output_filename p = output_filename q
  /\ in_place p = in_place q.

(** A sequence of operations with the assignments of the lightweight flag
    left out. *)
Definition without_flag_ops (ops : list AbstractParser.op) : list AbstractParser.op :=
  List.filter
    (fun o => match o with AbstractParser.SetLightweight _ => false | _ => true end)
    ops.

(** What the two [print] calls of the end-of-life handler are given. *)
Definition not_cleaned_args (self : Instance) (e : exn) : list pyobj :=
  [PStr ("[-] " +:+ filename self +:+ " was NOT cleaned: " +:+ str_of_exn e)].



(** What a concrete handler does when it writes [content] to [path]. *)
Definition write_file (path content : string) (w : World) : World :=
  OS.with_fs (<[path := content]> (fs w)) w.

(** Further concrete situations. *)
Module Sample.

(** Every drawn name is taken a first time, free a second time. *)
Definition env_two_draws : Env :=
  {| tmpdir := "/tmp";
     draws := [[19; 4; 12; 15; 30; 31; 32; 36]%nat; [0; 1; 2; 3; 4; 5; 6; 7]%nat];
     open_fault := None; move_fault := OS.moves_through; remove_fault := None |}.

(** No name can be drawn. *)
Definition env_no_draw : Env :=
  {| tmpdir := "/tmp"; draws := [];
     open_fault := None; move_fault := OS.moves_through; remove_fault := None |}.

(** The temporary directory is on another device and the disk of the
    destination is full: the rename raises, the copy truncates the
    destination and raises before it wrote anything. *)
Definition env_disk_full : Env :=
  {| tmpdir := "/tmp"; draws := [];
     open_fault := None;
     move_fault := {| dst_is_dir := false; rename_fault := Some EXDEV;
                      copy_fault := Some (CopyCutShort ENOSPC 0);
                      unlink_fault := None |};
     remove_fault := None |}.


(** The file name is a directory. *)
Definition env_into_directory : Env :=
  {| tmpdir := "/tmp"; draws := [];
     open_fault := None;
     move_fault := {| dst_is_dir := true; rename_fault := None;
                      copy_fault := None; unlink_fault := None |};
     remove_fault := None |}.

End Sample.

(* ===================================================================== *)
(** * Properties *)
(* ===================================================================== *)

(** ** Strings *)

Module StrFacts.
Import Str.

Lemma app_nil_l_s b : EmptyString +:+ b = b.
Proof. reflexivity. Qed.

Lemma app_cons_s x a b : String x a +:+ b = String x (a +:+ b).
Proof. reflexivity. Qed.

Ltac app_norm := rewrite ?app_cons_s, ?app_nil_l_s.

Lemma len_nil : len EmptyString = 0.
Proof. reflexivity. Qed.

Lemma len_cons x s : len (String x s) = 1 + len s.
Proof. unfold len. cbn [String.length]. lia. Qed.

Lemma len_nonneg s : 0 <= len s.
Proof. unfold len. lia. Qed.

Lemma len_app a b : len (a +:+ b) = len a + len b.
Proof.
  induction a as [|x a IH]; app_norm.
  - rewrite len_nil. lia.
  - rewrite !len_cons, IH. lia.
Qed.

Lemma app_assoc_s a b c : (a +:+ b) +:+ c = a +:+ (b +:+ c).
Proof.
  induction a as [|x a IH]; app_norm; [reflexivity|].
  now rewrite IH.
Qed.

Lemma app_nil_r_s a : a +:+ EmptyString = a.
Proof.
  induction a as [|x a IH]; app_norm; [reflexivity|].
  now rewrite IH.
Qed.

Lemma contains_app a b c : contains (a +:+ b) c = contains a c || contains b c.
Proof.
  induction a as [|x a IH]; app_norm; cbn [contains]; [reflexivity|].
  rewrite IH. now rewrite orb_assoc.
Qed.

Lemma rfind_range s c : -1 <= rfind s c < len s.
Proof.
  induction s as [|x s IH]; cbn [rfind].
  - rewrite len_nil. lia.
  - rewrite len_cons.
    destruct (0 <=? rfind s c) eqn:E; [lia|].
    destruct (Ascii.eqb x c); lia.
Qed.

Lemma rfind_absent s c : contains s c = false <-> rfind s c = -1.
Proof.
  induction s as [|x s IH]; cbn [rfind contains].
  - tauto.
  - pose proof (rfind_range s c) as R.
    destruct (0 <=? rfind s c) eqn:E.
    + apply Z.leb_le in E.
      split; intros H.
      * apply orb_false_iff in H as [_ H]. apply IH in H. lia.
      * lia.
    + apply Z.leb_gt in E.
      assert (rfind s c = -1) as Hr by lia.
      apply IH in Hr. rewrite Hr, orb_false_r.
      destruct (Ascii.eqb x c); split; intros; (reflexivity || discriminate).
Qed.

Lemma rfind_present s c : contains s c = true -> 0 <= rfind s c.
Proof.
  intros H. pose proof (rfind_range s c) as R.
  destruct (Z.eq_dec (rfind s c) (-1)) as [E|E]; [|lia].
  apply rfind_absent in E. congruence.
Qed.

Lemma rfind_app a b c :
  rfind (a +:+ b) c = if contains b c then len a + rfind b c else rfind a c.
Proof.
  induction a as [|x a IH]; app_norm.
  - rewrite len_nil. destruct (contains b c) eqn:E.
    + lia.
    + apply rfind_absent in E. rewrite E. reflexivity.
  - cbn [rfind]. rewrite IH, len_cons.
    destruct (contains b c) eqn:E; [|reflexivity].
    apply rfind_present in E. pose proof (len_nonneg a).
    destruct (0 <=? len a + rfind b c) eqn:E2; [lia|].
    apply Z.leb_gt in E2. lia.
Qed.

Lemma rfind_last a c t :
  contains t c = false -> rfind (a +:+ String c t) c = len a.
Proof.
  intros H. rewrite rfind_app. cbn [contains rfind].
  rewrite Ascii.eqb_refl. cbn [orb].
  apply rfind_absent in H. rewrite H. cbn. lia.
Qed.

Lemma rfind_decomp s c :
  0 <= rfind s c ->
  exists a t, s = a +:+ String c t /\ contains t c = false /\ rfind s c = len a.
Proof.
  induction s as [|x s IH]; cbn [rfind]; [lia|].
  destruct (0 <=? rfind s c) eqn:E.
  - intros _. apply Z.leb_le in E.
    destruct (IH E) as (a & t & -> & Ht & Hr).
    exists (String x a), t. app_norm. rewrite len_cons.
    repeat split; [assumption | lia].
  - apply Z.leb_gt in E.
    destruct (Ascii.eqb_spec x c) as [->|]; [|lia].
    intros _. exists EmptyString, s. app_norm.
    repeat split. apply rfind_absent.
    pose proof (rfind_range s c). lia.
Qed.

(** *** Slices *)

Lemma first_n_app a b : first_n (String.length a) (a +:+ b) = a.
Proof.
  induction a as [|x a IH]; app_norm; cbn [String.length first_n].
  - destruct b; reflexivity.
  - now rewrite IH.
Qed.

Lemma first_n_all n s : (String.length s <= n)%nat -> first_n n s = s.
Proof.
  revert n. induction s as [|x s IH]; intros n H.
  - destruct n; reflexivity.
  - cbn [String.length] in H. destruct n as [|n]; [lia|].
    cbn [first_n]. rewrite IH; [reflexivity | lia].
Qed.

Lemma skip_n_app a b : skip_n (String.length a) (a +:+ b) = b.
Proof.
  induction a as [|x a IH]; app_norm; cbn [String.length skip_n];
    [reflexivity | exact IH].
Qed.

Lemma first_skip n s : first_n n s +:+ skip_n n s = s.
Proof.
  revert n. induction s as [|x s IH]; intros [|n]; cbn [first_n skip_n]; app_norm;
    try reflexivity.
  now rewrite IH.
Qed.

Lemma length_skip_n n s : String.length (skip_n n s) = (String.length s - n)%nat.
Proof.
  revert n. induction s as [|x s IH]; intros [|n]; cbn [skip_n String.length];
    try reflexivity.
  apply IH.
Qed.

Lemma bound_id n i : 0 <= i <= n -> bound n i = i.
Proof.
  intros H. unfold bound. destruct (i <? 0) eqn:E.
  - apply Z.ltb_lt in E. lia.
  - lia.
Qed.

Lemma to_nat_len s : Z.to_nat (len s) = String.length s.
Proof. unfold len. apply Nat2Z.id. Qed.

Lemma skip_n_0 s : skip_n 0 s = s.
Proof. destruct s; reflexivity. Qed.

Lemma first_n_0 s : first_n 0 s = EmptyString.
Proof. destruct s; reflexivity. Qed.

Lemma slice_inside s i j :
  0 <= i <= j -> j <= len s ->
  slice s i j = first_n (Z.to_nat (j - i)) (skip_n (Z.to_nat i) s).
Proof.
  intros Hi Hj. unfold slice. rewrite !bound_id by lia. reflexivity.
Qed.

Lemma slice_to_0 s : slice_to s 0 = EmptyString.
Proof.
  unfold slice_to. pose proof (len_nonneg s).
  rewrite slice_inside by lia. apply first_n_0.
Qed.

Lemma slice_to_app a b : slice_to (a +:+ b) (len a) = a.
Proof.
  unfold slice_to. pose proof (len_nonneg a). pose proof (len_nonneg b).
  rewrite slice_inside by (rewrite ?len_app; lia).
  cbn [Z.to_nat]. rewrite skip_n_0, Z.sub_0_r, to_nat_len.
  apply first_n_app.
Qed.

Lemma slice_from_app a b : slice_from (a +:+ b) (len a) = b.
Proof.
  unfold slice_from. pose proof (len_nonneg a). pose proof (len_nonneg b).
  rewrite slice_inside by (rewrite ?len_app; lia).
  rewrite to_nat_len, skip_n_app.
  apply first_n_all. rewrite len_app. unfold len. lia.
Qed.

Lemma slice_char_app a x t :
  slice (a +:+ String x t) (len a) (len a + 1) = String x EmptyString.
Proof.
  pose proof (len_nonneg a). pose proof (len_nonneg t).
  rewrite slice_inside by (rewrite ?len_app, ?len_cons; lia).
  rewrite to_nat_len, skip_n_app.
  replace (len a + 1 - len a) with 1 by lia.
  change (Z.to_nat 1) with 1%nat. reflexivity.
Qed.

Lemma contains_first_n n s c : contains (first_n n s) c = true -> contains s c = true.
Proof.
  revert n. induction s as [|x s IH]; intros [|n]; cbn [first_n contains];
    try discriminate.
  intros H. apply orb_true_iff in H as [H|H].
  - rewrite H. reflexivity.
  - rewrite (IH _ H). apply orb_true_r.
Qed.

Lemma contains_skip_n n s c : contains (skip_n n s) c = true -> contains s c = true.
Proof.
  revert n. induction s as [|x s IH]; intros [|n]; cbn [skip_n contains];
    try discriminate; try tauto.
  intros H. rewrite (IH _ H). apply orb_true_r.
Qed.

Lemma contains_slice s i j c : contains (slice s i j) c = true -> contains s c = true.
Proof.
  unfold slice. intros H.
  apply contains_first_n in H. now apply contains_skip_n in H.
Qed.

(** A string that ends with [c] is something followed by [c]. *)
Lemma endswith_inv s c :
  endswith s c = true -> exists s', s = s' +:+ String c EmptyString.
Proof.
  unfold endswith. intros H. apply andb_true_iff in H as [Hne H].
  apply String.eqb_eq in H.
  assert (1 <= len s) as Hl.
  { destruct s as [|x s]; [discriminate|]. rewrite len_cons.
    pose proof (len_nonneg s). lia. }
  unfold slice_from in H. rewrite slice_inside in H by lia.
  replace (len s - (len s - 1)) with 1 in H by lia.
  exists (first_n (Z.to_nat (len s - 1)) s).
  rewrite <- H.
  rewrite (first_n_all (Z.to_nat 1))
    by (rewrite length_skip_n; unfold len in *; lia).
  symmetry. apply first_skip.
Qed.

End StrFacts.

(** ** Paths *)

Module PathFacts.
Import Str PosixPath StrFacts.

(** The loop either splits at [dotIndex] or falls through. *)
Lemma skip_leading_dots_cases n p di fi :
  skip_leading_dots n p di fi = (slice_to p di, slice_from p di)
  \/ skip_leading_dots n p di fi = (p, EmptyString).
Proof.
  revert fi. induction n as [|n IH]; intros fi; cbn [skip_leading_dots].
  - right. now rewrite slice_to_0.
  - destruct (fi <? di); [|right; now rewrite slice_to_0].
    destruct (negb _); [left; reflexivity | apply IH].
Qed.

(** It splits as soon as some character of the base name before
    [dotIndex] is not a dot. *)
Lemma skip_leading_dots_found n p di fi i :
  n = Z.to_nat (di - fi) ->
  fi <= i < di ->
  slice p i (i + 1) <> dot ->
  skip_leading_dots n p di fi = (slice_to p di, slice_from p di).
Proof.
  revert fi. induction n as [|n IH]; intros fi Hn Hi Hc.
  - lia.
  - cbn [skip_leading_dots].
    destruct (fi <? di) eqn:E; [|apply Z.ltb_ge in E; lia].
    destruct (String.eqb_spec (slice p fi (fi + 1)) (String extsep EmptyString))
      as [Heq|Hne]; cbn [negb]; [|reflexivity].
    apply IH; [lia | | assumption].
    destruct (Z.eq_dec fi i) as [->|]; [contradiction | lia].
Qed.

(** It falls through when every character from [filenameIndex] up to
    [dotIndex] is a dot. *)
Lemma skip_leading_dots_all_dots n p di fi :
  (forall i, fi <= i < di -> slice p i (i + 1) = dot) ->
  skip_leading_dots n p di fi = (p, EmptyString).
Proof.
  revert fi. induction n as [|n IH]; intros fi H; cbn [skip_leading_dots].
  - now rewrite slice_to_0.
  - destruct (fi <? di) eqn:E; [|now rewrite slice_to_0].
    apply Z.ltb_lt in E.
    rewrite (H fi) by lia. unfold dot. rewrite String.eqb_refl. cbn [negb].
    apply IH. intros i Hi. apply H. lia.
Qed.

(** [splitext] cuts the path in two, and a non-empty extension is a dot
    followed by characters that are neither dots nor separators. *)
Lemma splitext_cases p :
  splitext p = (p, EmptyString)
  \/ exists a t, p = a +:+ String extsep t
                 /\ contains t extsep = false /\ contains t sep = false
                 /\ splitext p = (a, String extsep t).
Proof.
  unfold splitext.
  destruct (rfind p extsep >? rfind p sep) eqn:E; [|left; now rewrite slice_to_0].
  apply Z.gtb_lt in E.
  pose proof (rfind_range p sep) as Rs.
  destruct (rfind_decomp p extsep) as (a & t & Hp & Ht & Hd); [lia|].
  destruct (skip_leading_dots_cases
              (Z.to_nat (rfind p extsep - (rfind p sep + 1))) p
              (rfind p extsep) (rfind p sep + 1)) as [H|H];
    rewrite H; [right | left; reflexivity].
  exists a, t. rewrite Hd.
  assert (slice_to p (len a) = a /\ slice_from p (len a) = String extsep t)
    as [-> ->]
    by (rewrite Hp; split; [apply slice_to_app | apply slice_from_app]).
  repeat split; try assumption.
  destruct (contains t sep) eqn:Hs; [|reflexivity].
  rewrite Hp, rfind_app in E. cbn [contains] in E.
  rewrite Hs, orb_true_r in E.
  assert (contains (String extsep t) sep = true) as Hc
    by (cbn [contains]; rewrite Hs; apply orb_true_r).
  apply rfind_present in Hc.
  rewrite <- Hp, Hd in E. lia.
Qed.

Lemma splitext_app p : fst (splitext p) +:+ snd (splitext p) = p.
Proof.
  destruct (splitext_cases p) as [H | (a & t & Hp & _ & _ & H)]; rewrite H; cbn [fst snd].
  - apply app_nil_r_s.
  - now symmetry.
Qed.

Lemma splitext_no_ext p : snd (splitext p) = EmptyString -> fst (splitext p) = p.
Proof.
  intros H. rewrite <- (splitext_app p) at 2. rewrite H. now rewrite app_nil_r_s.
Qed.

(** A dot-free, separator-free tail after a base name that holds a
    character other than a dot is the extension. *)
Lemma splitext_ext u x v t :
  x <> extsep ->
  contains (String x v) sep = false ->
  contains t extsep = false -> contains t sep = false ->
  splitext (u +:+ String x v +:+ String extsep t)
  = (u +:+ String x v, String extsep t).
Proof.
  intros Hx Hv Htd Hts.
  set (a := u +:+ String x v).
  assert (u +:+ String x v +:+ String extsep t = a +:+ String extsep t) as Hp
    by (unfold a; now rewrite app_assoc_s).
  rewrite Hp. unfold splitext.
  assert (rfind (a +:+ String extsep t) extsep = len a) as Hd
    by (now apply rfind_last).
  assert (rfind (a +:+ String extsep t) sep = rfind u sep) as Hs.
  { rewrite rfind_app. cbn [contains]. rewrite Hts. cbn [contains orb].
    unfold a. rewrite rfind_app, Hv. reflexivity. }
  rewrite Hd, Hs.
  pose proof (rfind_range u sep) as Ru.
  assert (len a = len u + 1 + len v) as La
    by (unfold a; rewrite len_app, len_cons; lia).
  pose proof (len_nonneg v) as Lv.
  destruct (len a >? rfind u sep) eqn:E; [|rewrite Z.gtb_ltb in E; apply Z.ltb_ge in E; lia].
  rewrite (skip_leading_dots_found _ _ _ _ (len u)); [| reflexivity | lia |].
  - now rewrite slice_to_app, slice_from_app.
  - rewrite <- Hp, app_cons_s, slice_char_app. unfold dot. congruence.
Qed.

(** No dot after the last separator: no extension. *)
Lemma splitext_plain u b :
  u = EmptyString \/ (exists u', u = u' +:+ String sep EmptyString) ->
  contains b extsep = false -> contains b sep = false ->
  splitext (u +:+ b) = (u +:+ b, EmptyString).
Proof.
  intros Hu Hbd Hbs. unfold splitext.
  assert (rfind (u +:+ b) extsep <= rfind (u +:+ b) sep) as Hle.
  { rewrite !rfind_app, Hbd, Hbs.
    destruct Hu as [->|[u' ->]].
    - cbn. lia.
    - rewrite rfind_last by reflexivity.
      rewrite rfind_app. cbn [contains]. 
      replace (Ascii.eqb sep extsep) with false by reflexivity. cbn [orb].
      pose proof (rfind_range u' extsep). lia. }
  destruct (_ >? _) eqn:E; [apply Z.gtb_lt in E; lia|].
  now rewrite slice_to_0.
Qed.

(** *** [join] *)

Lemma startswith_cons c s x : startswith (String c s) x = Ascii.eqb c x.
Proof.
  unfold startswith, slice_to. pose proof (len_nonneg s).
  rewrite slice_inside by (rewrite ?len_cons; lia).
  change (Z.to_nat (1 - 0)) with 1%nat. change (Z.to_nat 0) with 0%nat.
  cbn [skip_n first_n String.eqb]. destruct (Ascii.eqb c x); reflexivity.
Qed.

Lemma startswith_nil x : startswith EmptyString x = false.
Proof. reflexivity. Qed.

(** Joining onto ["."] a path that does not start with the separator
    prefixes it with ["./"]. *)
Lemma join_dot b : startswith b sep = false -> join "." b = "./" +:+ b.
Proof. intros H. unfold join. rewrite H. reflexivity. Qed.

(** A joined relative component sits after nothing or after a separator. *)
Lemma join_relative a b :
  startswith b sep = false ->
  exists u, join a b = u +:+ b
            /\ (u = EmptyString \/ exists u', u = u' +:+ String sep EmptyString).
Proof.
  intros H. unfold join. rewrite H.
  destruct (String.eqb_spec a EmptyString) as [->|Hne]; cbn [orb].
  - exists EmptyString. split; [reflexivity | now left].
  - destruct (endswith a sep) eqn:E.
    + exists a. split; [reflexivity | right; now apply endswith_inv].
    + exists (a +:+ String sep EmptyString). split.
      * now rewrite app_assoc_s.
      * right. now exists a.
Qed.

End PathFacts.

(** ** The constructor *)

Module InitFacts.
Import Str PosixPath StrFacts PathFacts AbstractParser.

(** The bracket expression of the constructor, character by character. *)
Lemma safe_first_iff c :
  Re.class_matches Re.safe_first c = true <-> first_char_ok c.
Proof.
  unfold Re.class_matches, Re.safe_first, first_char_ok.
  cbn [existsb Re.item_matches].
  rewrite !orb_true_iff, !andb_true_iff, !N.leb_le, !Ascii.eqb_eq.
  change (N_of_ascii "a") with 97%N. change (N_of_ascii "z") with 122%N.
  change (N_of_ascii "0") with 48%N. change (N_of_ascii "9") with 57%N.
  intuition congruence.
Qed.

Lemma safe_first_not c :
  Re.class_matches Re.safe_first c = false <-> ~ first_char_ok c.
Proof.
  split.
  - intros H Hok. apply safe_first_iff in Hok. congruence.
  - intros H. destruct (Re.class_matches Re.safe_first c) eqn:E; [|reflexivity].
    exfalso. apply H. now apply safe_first_iff.
Qed.

Lemma init_eq path :
  __init__ path =
  Ok {| filename := sanitize path;
        output_filename :=
          fst (splitext (sanitize path)) +:+ ".cleaned"
          +:+ snd (splitext (sanitize path));
        lightweight_cleaning := false;
        in_place := false |}.
Proof.
  unfold __init__. fold (sanitize path).
  destruct (splitext (sanitize path)); reflexivity.
Qed.

Lemma sanitize_empty : sanitize EmptyString = "./".
Proof. reflexivity. Qed.

Lemma sanitize_kept c rest :
  first_char_ok c -> sanitize (String c rest) = String c rest.
Proof.
  intros H. apply safe_first_iff in H. unfold sanitize.
  cbn [Re.search_anchored]. now rewrite H.
Qed.

Lemma sanitize_rewritten c rest :
  ~ first_char_ok c -> sanitize (String c rest) = "./" +:+ String c rest.
Proof.
  intros H. assert (c <> sep) as Hc.
  { intros ->. apply H. unfold first_char_ok. tauto. }
  apply safe_first_not in H. unfold sanitize.
  cbn [Re.search_anchored]. rewrite H.
  apply join_dot. rewrite startswith_cons. now apply Ascii.eqb_neq.
Qed.

(** Whenever the search fails the stored name is ["./"] and the path. *)
Lemma sanitize_no_match path :
  Re.search_anchored Re.safe_first path = None -> sanitize path = "./" +:+ path.
Proof.
  intros H. destruct path as [|c rest]; [reflexivity|].
  apply sanitize_rewritten. apply safe_first_not.
  cbn [Re.search_anchored] in H.
  destruct (Re.class_matches Re.safe_first c); [discriminate | reflexivity].
Qed.

Lemma sanitize_match path m :
  Re.search_anchored Re.safe_first path = Some m -> sanitize path = path.
Proof. intros H. unfold sanitize. now rewrite H. Qed.

(** The stored name always starts with a character of the class. *)
Lemma sanitize_starts_ok path :
  exists c s, sanitize path = String c s /\ first_char_ok c.
Proof.
  destruct (Re.search_anchored Re.safe_first path) as [m|] eqn:E.
  - rewrite (sanitize_match _ _ E).
    destruct path as [|c rest]; [discriminate|].
    exists c, rest. split; [reflexivity|].
    apply safe_first_iff. cbn [Re.search_anchored] in E.
    destruct (Re.class_matches Re.safe_first c); [reflexivity | discriminate].
  - rewrite (sanitize_no_match _ E).
    exists "."%char, (String "/" path). split; [reflexivity|].
    unfold first_char_ok. tauto.
Qed.

(** With an extension, the output keeps it as its own extension. *)
Lemma cleaned_keeps_ext p :
  snd (splitext p) <> EmptyString ->
  splitext (fst (splitext p) +:+ ".cleaned" +:+ snd (splitext p))
  = (fst (splitext p) +:+ ".cleaned", snd (splitext p)).
Proof.
  intros Hne.
  destruct (splitext_cases p) as [H | (a & t & Hp & Htd & Hts & H)];
    rewrite H in *; cbn [fst snd] in *; [congruence|].
  replace (a +:+ ".cleaned" +:+ String extsep t)
    with ((a +:+ ".") +:+ String "c" "leaned" +:+ String extsep t)
    by (now rewrite app_assoc_s).
  replace (a +:+ ".cleaned") with ((a +:+ ".") +:+ String "c" "leaned")
    by (now rewrite app_assoc_s).
  apply splitext_ext; try assumption; [discriminate | reflexivity].
Qed.

(** A base name made of a dot and a dot-free rest has no extension. *)
Lemma splitext_dotfile u name :
  u = EmptyString \/ (exists u', u = u' +:+ String sep EmptyString) ->
  contains name extsep = false -> contains name sep = false ->
  splitext (u +:+ String extsep name) = (u +:+ String extsep name, EmptyString).
Proof.
  intros Hu Hd Hs. unfold splitext.
  rewrite (rfind_last u extsep name Hd).
  assert (rfind (u +:+ String extsep name) sep = len u - 1) as ->.
  { rewrite rfind_app. cbn [contains]. rewrite Hs.
    replace (Ascii.eqb extsep sep) with false by reflexivity. cbn [orb].
    destruct Hu as [->|[u' ->]]; [reflexivity|].
    rewrite rfind_last by reflexivity. rewrite len_app, len_cons, len_nil. lia. }
  destruct (len u >? len u - 1); [|now rewrite slice_to_0].
  apply skip_leading_dots_all_dots. intros i Hi. lia.
Qed.

End InitFacts.

(** ** The operating system *)

Module OSFacts.
Import Str PosixPath OS StrFacts.

Lemma fs_record e w : fs (record e w) = fs w.
Proof. reflexivity. Qed.

Lemma log_record e w : log (record e w) = log w ++ [e].
Proof. reflexivity. Qed.

(** *** [shutil.move] *)

(** The rename-or-copy step leaves the descriptors and the log alone. *)
Lemma move_file_shape o src rd w :
  open_fds (snd (move_file o src rd w)) = open_fds w
  /\ log (snd (move_file o src rd w)) = log w.
Proof.
  unfold move_file. destruct (fs w !! src); [|now split].
  destruct (rename_fault o); [|now split].
  destruct (String.eqb src rd); [now split|].
  destruct (copy_fault o) as [[e|e kept]|]; try now split.
  destruct (unlink_fault o); now split.
Qed.

(** When it raises, it left every path but the one it was writing, the
    source included; it left all of them when the rename was not refused,
    when the copy was refused before writing, or when the source was
    missing. *)
Lemma move_file_raises o src rd w e w' :
  move_file o src rd w = (Raise e, w') ->
  (forall p, p <> rd -> fs w' !! p = fs w !! p)
  /\ fs w' !! src = fs w !! src
  /\ (rename_fault o = None
      \/ (exists e0, copy_fault o = Some (CopyRefused e0))
      \/ fs w !! src = None ->
      fs w' = fs w).
Proof.
  unfold move_file. destruct (fs w !! src) as [c|] eqn:Hs.
  2:{ intros [= _ <-]. split; [reflexivity|].
      split; [exact Hs | intros _; reflexivity]. }
  destruct (rename_fault o) as [e0|]; [|discriminate].
  destruct (String.eqb_spec src rd) as [->|Hne].
  { intros [= _ <-]. split; [reflexivity|].
    split; [exact Hs | intros _; reflexivity]. }
  destruct (copy_fault o) as [[e1|e1 kept]|].
  - intros [= _ <-]. split; [reflexivity|].
    split; [exact Hs | intros _; reflexivity].
  - intros [= _ <-]. cbn [fs with_fs]. split; [|split].
    + intros p Hp. rewrite lookup_insert_ne by congruence. reflexivity.
    + rewrite lookup_insert_ne by congruence. exact Hs.
    + intros [H|[[e2 H]|H]]; discriminate.
  - destruct (unlink_fault o) as [e1|]; [|discriminate].
    intros [= _ <-]. cbn [fs with_fs]. split; [|split].
    + intros p Hp. rewrite lookup_insert_ne by congruence. reflexivity.
    + rewrite lookup_insert_ne by congruence. exact Hs.
    + intros [H|[[e2 H]|H]]; discriminate.
Qed.

(** When it returns, the source existed and its content now sits at the
    destination, the source being gone. *)
Lemma move_file_returns o src rd w d w' :
  move_file o src rd w = (Ok d, w') ->
  d = rd
  /\ exists content,
       fs w !! src = Some content
       /\ (rename_fault o = None \/ src <> rd)
       /\ w' = with_fs (<[rd := content]> (delete src (fs w))) w.
Proof.
  unfold move_file. destruct (fs w !! src) as [c|] eqn:Hs; [|discriminate].
  destruct (rename_fault o) as [e0|] eqn:Hr.
  - destruct (String.eqb_spec src rd) as [->|Hne]; [discriminate|].
    destruct (copy_fault o) as [[e1|e1 kept]|]; try discriminate.
    destruct (unlink_fault o) as [e1|]; [discriminate|].
    intros [= <- <-]. split; [reflexivity|]. exists c.
    split; [reflexivity|]. split; [now right|].
    unfold with_fs. cbn [fs open_fds log].
    now rewrite delete_insert_ne by congruence.
  - intros [= <- <-]. split; [reflexivity|]. exists c.
    split; [reflexivity|]. split; [now left | reflexivity].
Qed.

(** Whatever a move answers, it leaves the descriptors alone and adds its
    call to the log. *)
Lemma shutil_move_shape o src dst w :
  open_fds (snd (shutil_move o src dst w)) = open_fds w
  /\ log (snd (shutil_move o src dst w)) = log w ++ [SysMove src dst].
Proof.
  unfold shutil_move.
  destruct (contains src NUL || contains dst NUL); [now split|].
  destruct (dst_is_dir o).
  - destruct (fs _ !! join dst (_basename src)); [now split|].
    exact (move_file_shape o src _ (record (SysMove src dst) w)).
  - exact (move_file_shape o src _ (record (SysMove src dst) w)).
Qed.


(** A move that returns found the source and put its content at the path it
    returns, which is the destination or a path that did not exist; the
    source is gone. *)
Lemma shutil_move_returns o src dst w d w' :
  shutil_move o src dst w = (Ok d, w') ->
  contains src NUL = false /\ contains dst NUL = false
  /\ exists content,
       fs w !! src = Some content
       /\ (d = dst \/ fs w !! d = None)
       /\ w' = with_fs (<[d := content]> (delete src (fs w)))
                       (record (SysMove src dst) w).
Proof.
  unfold shutil_move. destruct (contains src NUL || contains dst NUL) eqn:E;
    [discriminate|].
  apply orb_false_iff in E as [E1 E2].
  destruct (dst_is_dir o).
  - destruct (fs _ !! join dst (_basename src)) eqn:Hrd; [discriminate|].
    intros H. apply move_file_returns in H as (-> & c & Hs & _ & ->).
    rewrite fs_record in *. repeat split; try assumption.
    exists c. repeat split; [assumption | now right].
  - intros H. apply move_file_returns in H as (-> & c & Hs & _ & ->).
    rewrite fs_record in *. repeat split; try assumption.
    exists c. repeat split; [assumption | now left].
Qed.

(** Moving a missing source raises and changes no file. *)
Lemma shutil_move_absent o src dst w :
  contains src NUL = false -> contains dst NUL = false ->
  fs w !! src = None ->
  exists e, shutil_move o src dst w = (Raise e, record (SysMove src dst) w).
Proof.
  intros Hs Hd Ha. unfold shutil_move. rewrite Hs, Hd. cbn [orb].
  destruct (dst_is_dir o).
  - destruct (fs _ !! join dst (_basename src)); [eauto|].
    unfold move_file. rewrite fs_record, Ha. eauto.
  - unfold move_file. rewrite fs_record, Ha. eauto.
Qed.

(** Whatever a move answers, a path other than its source and destination
    keeps its content, provided it is not the path inside a destination
    directory that the move creates. *)
Lemma shutil_move_keeps o src dst w p :
  p <> src -> p <> dst ->
  p <> join dst (_basename src) \/ is_Some (fs w !! p) ->
  fs (snd (shutil_move o src dst w)) !! p = fs w !! p.
Proof.
  intros Hsrc Hdst Hrd.
  assert (forall rd, p <> rd ->
            fs (snd (move_file o src rd (record (SysMove src dst) w))) !! p
            = fs w !! p) as Hfile.
  { intros rd Hp.
    destruct (move_file o src rd (record (SysMove src dst) w)) as [[d|e] w'] eqn:E;
      cbn [snd].
    - apply move_file_returns in E as (_ & c & _ & _ & ->).
      cbn [fs with_fs record].
      rewrite lookup_insert_ne by congruence. now apply lookup_delete_ne.
    - apply move_file_raises in E as (Hk & _). now rewrite Hk. }
  unfold shutil_move.
  destruct (contains src NUL || contains dst NUL); [reflexivity|].
  destruct (dst_is_dir o); [|now apply Hfile].
  destruct (fs (record (SysMove src dst) w) !! join dst (_basename src)) eqn:Hex;
    [reflexivity|].
  apply Hfile. destruct Hrd as [Hrd|[c Hc]]; [exact Hrd|].
  intros ->. rewrite fs_record in Hex. congruence.
Qed.

(** Whatever [os.remove] answers, it leaves the descriptors alone and adds
    its call to the log. *)
Lemma os_remove_shape fault path w :
  open_fds (snd (os_remove fault path w)) = open_fds w
  /\ log (snd (os_remove fault path w)) = log w ++ [SysRemove path].
Proof.
  unfold os_remove. destruct (contains path NUL); [now split|].
  destruct (fs _ !! path); [|now split].
  destruct fault; now split.
Qed.


(** Removing a file that is absent raises [ENOENT]. *)
Lemma os_remove_absent fault path w :
  contains path NUL = false -> fs w !! path = None ->
  os_remove fault path w
  = (Raise (OSError ENOENT path), record (SysRemove path) w).
Proof.
  intros Hn Ha. unfold os_remove. now rewrite Hn, fs_record, Ha.
Qed.

Lemma os_open_excl_returns fault file w fd w' :
  os_open_excl fault file w = (Ok fd, w') ->
  contains file NUL = false
  /\ fs w !! file = None
  /\ (fd ∉ open_fds w)
  /\ w' = {| fs := <[file := EmptyString]> (fs w);
             open_fds := {[fd]} ∪ open_fds w;
             log := log w ++ [SysOpen file] |}.
Proof.
  unfold os_open_excl. destruct (contains file NUL); [discriminate|].
  rewrite fs_record. destruct (fs w !! file); [discriminate|].
  destruct fault; [discriminate|].
  intros [= <- <-]. repeat split. apply is_fresh.
Qed.

Lemma os_open_excl_raises fault file w e w' :
  os_open_excl fault file w = (Raise e, w') ->
  w' = record (SysOpen file) w.
Proof.
  unfold os_open_excl. destruct (contains file NUL); [now intros [= _ <-]|].
  destruct (fs _ !! file); [now intros [= _ <-]|].
  destruct fault; [now intros [= _ <-] | discriminate].
Qed.

(** A free, NUL-free name is created unless the system refuses. *)
Lemma os_open_excl_free file w :
  contains file NUL = false -> fs w !! file = None ->
  exists fd w', os_open_excl None file w = (Ok fd, w').
Proof.
  intros Hn Hf. unfold os_open_excl. rewrite Hn, fs_record, Hf. eauto.
Qed.

Lemma fd_in_opened (fd : nat) (X : gset nat) : fd ∈ ({[fd]} ∪ X : gset nat).
Proof. apply elem_of_union_l, elem_of_singleton. reflexivity. Qed.

Lemma opened_then_closed (fd : nat) (X : gset nat) :
  fd ∉ X -> ({[fd]} ∪ X) ∖ {[fd]} = X.
Proof.
  intros H. apply set_eq. intros x.
  rewrite elem_of_difference, elem_of_union, elem_of_singleton.
  split.
  - intros [[->|Hx] Hne]; [contradiction | assumption].
  - intros Hx. split; [now right | intros ->; contradiction].
Qed.

Lemma os_close_open fd w :
  fd ∈ open_fds w ->
  os_close fd w
  = (Ok tt, {| fs := fs w; open_fds := open_fds w ∖ {[fd]};
               log := log w ++ [SysClose fd] |}).
Proof.
  intros H. unfold os_close. cbn [record open_fds fs log].
  destruct (decide _); [reflexivity | contradiction].
Qed.

End OSFacts.

(** ** Temporary names *)

Module TempFacts.
Import Str PosixPath OS Tempfile StrFacts PathFacts OSFacts.

(** A drawn name only holds characters of the alphabet. *)
Lemma choices_in_population population draw c :
  contains (choices population draw) c = true -> contains population c = true.
Proof.
  induction draw as [|i rest IH]; cbn [choices]; [discriminate|].
  rewrite contains_app. intros H. apply orb_true_iff in H as [H|H].
  - now apply contains_slice in H.
  - now apply IH.
Qed.

Lemma choices_avoid draw c :
  contains characters c = false -> contains (choices characters draw) c = false.
Proof.
  intros H. destruct (contains (choices characters draw) c) eqn:E; [|reflexivity].
  apply choices_in_population in E. congruence.
Qed.

Lemma in_firstn {A : Type} (x : A) n l : In x (List.firstn n l) -> In x l.
Proof.
  revert n. induction l as [|y l IH]; intros [|n]; cbn [List.firstn In];
    try tauto.
  intros [H|H]; [now left | right; eauto].
Qed.

Lemma candidate_names_drawn env name :
  In name (candidate_names env) -> exists draw, name = choices characters draw.
Proof.
  unfold candidate_names. intros H. apply in_firstn in H.
  apply in_map_iff in H as (draw & <- & _). now exists draw.
Qed.

(** What a successful [mkstemp] did. *)
Lemma mkstemp_inner_returns dir pre suf fault names w fd file w' :
  mkstemp_inner dir pre suf fault names w = (Ok (fd, file), w') ->
  (exists name, In name names /\ file = join dir (pre +:+ name +:+ suf))
  /\ contains file NUL = false
  /\ fs w !! file = None
  /\ (fd ∉ open_fds w)
  /\ fs w' = <[file := EmptyString]> (fs w)
  /\ open_fds w' = {[fd]} ∪ open_fds w.
Proof.
  revert w. induction names as [|name rest IH]; intros w; cbn [mkstemp_inner];
    [discriminate|].
  destruct (os_open_excl fault (join dir (pre +:+ name +:+ suf)) w)
    as [[fd0|e] w1] eqn:E.
  - intros [= <- <- <-].
    apply os_open_excl_returns in E as (Hn & Hf & Hfd & ->).
    repeat split; try assumption.
    exists name. split; [now left | reflexivity].
  - apply os_open_excl_raises in E as ->.
    assert (mkstemp_inner dir pre suf fault rest
              (record (SysOpen (join dir (pre +:+ name +:+ suf))) w)
            = (Ok (fd, file), w') ->
            (exists name0, In name0 (name :: rest)
                           /\ file = join dir (pre +:+ name0 +:+ suf))
            /\ contains file NUL = false /\ fs w !! file = None
            /\ (fd ∉ open_fds w) /\ fs w' = <[file := EmptyString]> (fs w)
            /\ open_fds w' = {[fd]} ∪ open_fds w) as Hrec.
    { intros H. apply IH in H as ((n0 & Hin & Hfile) & H).
      split; [exists n0; split; [now right | assumption] | exact H]. }
    destruct e as [[]| |]; try discriminate; exact Hrec.
Qed.

(** A failed [mkstemp] created nothing. *)
Lemma mkstemp_inner_raises dir pre suf fault names w e w' :
  mkstemp_inner dir pre suf fault names w = (Raise e, w') ->
  fs w' = fs w /\ open_fds w' = open_fds w.
Proof.
  revert w. induction names as [|name rest IH]; intros w; cbn [mkstemp_inner].
  - now intros [= _ <-].
  - destruct (os_open_excl fault (join dir (pre +:+ name +:+ suf)) w)
      as [[fd0|e0] w1] eqn:E; [discriminate|].
    apply os_open_excl_raises in E as ->.
    destruct e0 as [[]| |]; try (now intros [= _ <-]).
    intros H. now apply IH in H.
Qed.

(** [mkstemp] returns as soon as one candidate is free, the paths hold no
    NUL and the system does not refuse. *)
Lemma mkstemp_inner_total dir pre suf names w :
  (forall name, In name names ->
                contains (join dir (pre +:+ name +:+ suf)) NUL = false) ->
  (exists name, In name names /\ fs w !! join dir (pre +:+ name +:+ suf) = None) ->
  exists fd file w', mkstemp_inner dir pre suf None names w = (Ok (fd, file), w').
Proof.
  revert w. induction names as [|name rest IH]; intros w Hn (n0 & Hin & Hfree).
  - destruct Hin.
  - cbn [mkstemp_inner].
    destruct (fs w !! join dir (pre +:+ name +:+ suf)) as [c|] eqn:Hl.
    + unfold os_open_excl. rewrite (Hn name) by now left.
      rewrite fs_record, Hl.
      apply IH.
      * intros n Hi. apply Hn. now right.
      * exists n0. rewrite fs_record. split; [|assumption].
        destruct Hin as [->|]; [congruence | assumption].
    + destruct (os_open_excl_free _ w (Hn name (or_introl eq_refl)) Hl)
        as (fd & w' & ->). eauto.
Qed.

(** The temporary path carries the suffix as its extension, when the
    suffix is an extension. *)
Lemma temp_path_ext dir draw p :
  snd (splitext (join dir ("tmp" +:+ choices characters draw +:+ snd (splitext p))))
  = snd (splitext p).
Proof.
  set (name := choices characters draw).
  assert (contains name extsep = false) as Nd by (now apply choices_avoid).
  assert (contains name sep = false) as Ns by (now apply choices_avoid).
  destruct (join_relative dir ("tmp" +:+ name +:+ snd (splitext p)))
    as (u & -> & Hu); [now rewrite app_cons_s, startswith_cons|].
  destruct (splitext_cases p) as [H | (a & t & Hp & Htd & Hts & H)];
    rewrite H; cbn [fst snd].
  - rewrite splitext_plain; [reflexivity | assumption | |].
    + rewrite !app_cons_s, app_nil_l_s, app_nil_r_s. cbn [contains].
      now rewrite Nd.
    + rewrite !app_cons_s, app_nil_l_s, app_nil_r_s. cbn [contains].
      now rewrite Ns.
  - replace (u +:+ "tmp" +:+ name +:+ String extsep t)
      with (u +:+ String "t" ("mp" +:+ name) +:+ String extsep t)
      by (now rewrite !app_cons_s, app_nil_l_s).
    rewrite splitext_ext; [reflexivity | discriminate | | assumption | assumption].
    rewrite !app_cons_s, app_nil_l_s. cbn [contains]. now rewrite Ns.
Qed.

End TempFacts.

(** ** The methods *)

Module ParserFacts.
Import Str PosixPath OS Tempfile AbstractParser.
Import StrFacts PathFacts OSFacts TempFacts InitFacts.

(** *** [set_edit_in_place] *)

Lemma set_edit_in_place_returns env self w self' w' :
  set_edit_in_place env self w = (Ok tt, self', w') ->
  (exists draw,
      output_filename self'
      = join (tmpdir env)
          ("tmp" +:+ choices characters draw +:+ snd (splitext (filename self))))
  /\ filename self' = filename self
  /\ lightweight_cleaning self' = lightweight_cleaning self
  /\ in_place self' = true
  /\ contains (output_filename self') NUL = false
  /\ fs w !! output_filename self' = None
  /\ fs w' = <[output_filename self' := EmptyString]> (fs w)
  /\ open_fds w' = open_fds w.
Proof.
  unfold set_edit_in_place.
  destruct (splitext (filename self)) as [stem ext] eqn:Hs. cbn [snd].
  destruct (mkstemp env ext w) as [[[fd path]|e] w1] eqn:M; [|discriminate].
  unfold mkstemp in M.
  apply mkstemp_inner_returns in M
    as ((name & Hin & Hfile) & Hn & Hfree & Hfd & Hfs & Hfds).
  rewrite os_close_open by (rewrite Hfds; apply fd_in_opened).
  intros [= <- <-]. cbn [filename output_filename lightweight_cleaning in_place fs open_fds].
  apply candidate_names_drawn in Hin as (draw & ->).
  repeat split; try assumption.
  - now exists draw.
  - rewrite Hfds. now apply opened_then_closed.
Qed.

Lemma set_edit_in_place_raises env self w e self' w' :
  set_edit_in_place env self w = (Raise e, self', w') ->
  self' = self /\ fs w' = fs w /\ open_fds w' = open_fds w.
Proof.
  unfold set_edit_in_place.
  destruct (splitext (filename self)) as [stem ext].
  destruct (mkstemp env ext w) as [[[fd path]|e0] w1] eqn:M.
  - unfold mkstemp in M.
    apply mkstemp_inner_returns in M as (_ & _ & _ & _ & _ & Hfds).
    rewrite os_close_open by (rewrite Hfds; apply fd_in_opened). discriminate.
  - intros [= _ <- <-]. split; [reflexivity|].
    unfold mkstemp in M. now apply mkstemp_inner_raises in M.
Qed.

Lemma set_edit_in_place_filename env self w :
  filename (snd (fst (set_edit_in_place env self w))) = filename self.
Proof.
  destruct (set_edit_in_place env self w) as [[[[]|e] self'] w'] eqn:E; cbn [fst snd].
  - now apply set_edit_in_place_returns in E as (_ & H & _).
  - now apply set_edit_in_place_raises in E as (-> & _).
Qed.

Lemma contains_join a b c :
  contains a c = false -> contains b c = false -> c <> sep ->
  contains (join a b) c = false.
Proof.
  intros Ha Hb Hc. unfold join.
  destruct (startswith b sep); [assumption|].
  destruct (_ || _); rewrite !contains_app, ?Ha, ?Hb; cbn [contains orb];
    [reflexivity|].
  destruct (Ascii.eqb_spec sep c); [congruence | reflexivity].
Qed.

Lemma contains_ext p c :
  contains p c = false -> contains (snd (splitext p)) c = false.
Proof.
  intros H. rewrite <- (splitext_app p), contains_app in H.
  now apply orb_false_iff in H as [_ H].
Qed.

(** The call returns whenever the system cooperates and some drawn name is
    unused. *)
Lemma set_edit_in_place_total env self w :
  open_fault env = None ->
  contains (tmpdir env) NUL = false ->
  contains (filename self) NUL = false ->
  (exists name,
      In name (candidate_names env)
      /\ fs w !! join (tmpdir env) ("tmp" +:+ name +:+ snd (splitext (filename self)))
         = None) ->
  exists self' w', set_edit_in_place env self w = (Ok tt, self', w').
Proof.
  intros Hf Hd Hp Hfree. unfold set_edit_in_place.
  destruct (splitext (filename self)) as [stem ext] eqn:Hs.
  assert (contains ext NUL = false) as He
    by (replace ext with (snd (splitext (filename self))) by (now rewrite Hs);
        now apply contains_ext).
  cbn [snd] in Hfree.
  destruct (mkstemp_inner_total (tmpdir env) "tmp" ext (candidate_names env) w)
    as (fd & file & w1 & M); [|assumption|].
  - intros name Hin. apply candidate_names_drawn in Hin as (draw & ->).
    apply contains_join; [assumption | | discriminate].
    rewrite !contains_app, He, choices_avoid by reflexivity. reflexivity.
  - unfold mkstemp. rewrite Hf, M.
    apply mkstemp_inner_returns in M as (_ & _ & _ & _ & _ & Hfds).
    rewrite os_close_open by (rewrite Hfds; apply fd_in_opened). eauto.
Qed.

(** *** [__del__] *)

Lemma del_default env self w :
  in_place self = false -> __del__ env self w = (Ok tt, w).
Proof. intros H. unfold __del__. now rewrite H. Qed.

Lemma del_moved env self w d w1 :
  in_place self = true ->
  shutil_move (move_fault env) (output_filename self) (filename self) w = (Ok d, w1) ->
  __del__ env self w = (Ok tt, w1).
Proof.
  intros Hi Hm. unfold __del__, try_except, discard. now rewrite Hi, Hm.
Qed.

(** The handler of a failed move, spelled out. *)
Lemma del_move_failed env self w e w1 :
  in_place self = true ->
  shutil_move (move_fault env) (output_filename self) (filename self) w
  = (Raise e, w1) ->
  __del__ env self w =
  match os_remove (remove_fault env) (output_filename self)
          (record (not_cleaned_report self e) w1) with
  | (Ok _, w3) => (Ok tt, w3)
  | (Raise e2, w3) =>
      if is_OSError e2 then (Ok tt, record (not_removed_report self e2) w3)
      else (Raise e2, w3)
  end.
Proof.
  intros Hi Hm. unfold __del__, try_except, discard, seq, print.
  rewrite Hi, Hm. cbn [is_Exception].
  unfold not_cleaned_report, not_removed_report.
  destruct (os_remove _ _ _) as [[[]|e2] w3]; reflexivity.
Qed.

(** Every call on an in-place instance asks for the move. *)
Lemma del_asks_move env self w :
  in_place self = true ->
  exists rest,
    log (snd (__del__ env self w))
    = log w ++ SysMove (output_filename self) (filename self) :: rest.
Proof.
  intros Hi.
  pose proof (shutil_move_shape (move_fault env) (output_filename self)
                (filename self) w) as [_ Hlog].
  destruct (shutil_move (move_fault env) (output_filename self) (filename self) w)
    as [[d|e] w1] eqn:Hm; cbn [snd] in Hlog.
  - rewrite (del_moved _ _ _ _ _ Hi Hm). cbn [snd]. exists []. exact Hlog.
  - rewrite (del_move_failed _ _ _ _ _ Hi Hm).
    pose proof (os_remove_shape (remove_fault env) (output_filename self)
                  (record (not_cleaned_report self e) w1)) as [_ Hl2].
    destruct (os_remove (remove_fault env) (output_filename self)
                (record (not_cleaned_report self e) w1)) as [[[]|e2] w3];
      cbn [snd] in Hl2.
    + cbn [snd]. rewrite Hl2. cbn [log record]. rewrite Hlog, <- !app_assoc.
      eexists. reflexivity.
    + destruct (is_OSError e2); cbn [snd log record]; rewrite Hl2;
        cbn [log record]; rewrite Hlog, <- !app_assoc; eexists; reflexivity.
Qed.

(** *** Runs *)

Lemma step_filename st o : filename (fst (step st o)) = filename (fst st).
Proof.
  destruct st as [self w]. destruct o as [env|b|env|f]; cbn [step fst];
    try reflexivity.
  pose proof (set_edit_in_place_filename env self w) as H.
  destruct (set_edit_in_place env self w) as [[r self'] w']. exact H.
Qed.

Lemma run_filename ops st : filename (fst (run ops st)) = filename (fst st).
Proof.
  unfold run. revert st. induction ops as [|o ops IH]; intros st; cbn [fold_left].
  - reflexivity.
  - rewrite IH. apply step_filename.
Qed.

End ParserFacts.

(* ===================================================================== *)
(** * The claims *)
(* ===================================================================== *)

Import Str PosixPath OS Tempfile AbstractParser.
Import StrFacts PathFacts OSFacts TempFacts InitFacts ParserFacts.

(** ** Construction *)

(** C1. A path whose first character is not a lowercase ASCII letter, an
    ASCII digit, ['.'] or ['/'] is stored as ["./"] followed by the path; a
    path whose first character is one of these is stored unchanged; and the
    output name is derived from the stored name, that is after the
    rewrite. *)
Theorem init_sanitizes_path (c : ascii) (rest : string) :
  exists p,
    __init__ (String c rest) = Ok p
    /\ (~ first_char_ok c -> filename p = "./" +:+ String c rest)
    /\ (first_char_ok c -> filename p = String c rest)
    /\ output_filename p
       = fst (splitext (filename p)) +:+ ".cleaned" +:+ snd (splitext (filename p)).
Proof.
  eexists. split; [apply init_eq|]. cbn [filename output_filename].
  split; [|split].
  - apply sanitize_rewritten.
  - apply sanitize_kept.
  - reflexivity.
Qed.

Lemma init_sanitizes_path_witness :
  (exists p, __init__ "-rf.jpg" = Ok p /\ filename p = "./-rf.jpg")
  /\ (exists p, __init__ "photo.jpg" = Ok p /\ filename p = "photo.jpg").
Proof.
  split.
  - destruct (init_sanitizes_path "-" "rf.jpg") as (p & Hp & Hre & _ & _).
    exists p. split; [exact Hp|]. apply Hre.
    unfold first_char_ok. change (N_of_ascii "-") with 45%N.
    intros [H|[H|[H|H]]]; [lia | lia | discriminate | discriminate].
  - destruct (init_sanitizes_path "p" "hoto.jpg") as (p & Hp & _ & Hk & _).
    exists p. split; [exact Hp|]. apply Hk.
    unfold first_char_ok. change (N_of_ascii "p") with 112%N. left. lia.
Defined.

(** C2, as stated, fails: given the empty string the constructor returns an
    instance, named ["./"], and raises nothing. *)
Lemma init_empty_returns :
  __init__ EmptyString = Ok {| filename := "./";
                      output_filename := "./.cleaned";
                      lightweight_cleaning := false;
                      in_place := false |}
  /\ ~ (exists e, __init__ EmptyString = Raise e).
Proof.
  split; [reflexivity|]. intros [e H]. discriminate H.
Qed.

(** C2, amended. The constructor of the contract never raises: every path
    string, the empty one included, yields an instance; the empty string
    yields the instance named ["./"] with output ["./.cleaned"]. *)
Theorem init_never_raises :
  (forall path, exists p, __init__ path = Ok p /\ filename p = sanitize path)
  /\ __init__ EmptyString = Ok {| filename := "./";
                         output_filename := "./.cleaned";
                         lightweight_cleaning := false;
                         in_place := false |}.
Proof.
  split; [|reflexivity].
  intros path. eexists. split; [apply init_eq | reflexivity].
Qed.

(** C3, as stated, fails: for ["README"] the stored name ["./README"] has no
    extension while the output ["./README.cleaned"] has the extension
    [".cleaned"]. *)
Lemma cleaned_extension_differs :
  __init__ "README" = Ok {| filename := "./README";
                            output_filename := "./README.cleaned";
                            lightweight_cleaning := false;
                            in_place := false |}
  /\ ext_of "./README" = EmptyString
  /\ ext_of "./README.cleaned" = ".cleaned"
  /\ ext_of "./README.cleaned" <> ext_of "./README".
Proof.
  repeat split; try reflexivity. discriminate.
Qed.

(** C3, amended. Construction yields an instance that is not in place and
    whose output name is the stem, [".cleaned"] and the extension of the
    stored name; when that extension is not empty, it is the extension of
    the output name as well. *)
Theorem init_output_filename (path : string) :
  exists p,
    __init__ path = Ok p
    /\ in_place p = false
    /\ output_filename p
       = fst (splitext (filename p)) +:+ ".cleaned" +:+ ext_of (filename p)
    /\ (ext_of (filename p) <> EmptyString ->
        splitext (output_filename p)
        = (fst (splitext (filename p)) +:+ ".cleaned", ext_of (filename p))).
Proof.
  eexists. split; [apply init_eq|].
  cbn [filename output_filename in_place]. unfold ext_of.
  repeat split. apply cleaned_keeps_ext.
Qed.

Lemma init_output_filename_witness :
  exists p, __init__ "photo.jpg" = Ok p
            /\ splitext (output_filename p) = ("photo.cleaned", ".jpg").
Proof.
  destruct (init_output_filename "photo.jpg") as (p & Hp & _ & _ & He).
  exists p. split; [exact Hp|].
  assert (p = Demo.constructed) as ->
    by (vm_compute in Hp; injection Hp as <-; reflexivity).
  rewrite He; [reflexivity | vm_compute; discriminate].
Defined.

(** C10. When the stored name has no extension the output name is the stored
    name followed by [".cleaned"]; a base name made of a dot and a rest
    without dots has no extension, so ["./.config"] gives
    ["./.config.cleaned"]. *)
Theorem output_without_extension :
  (forall path, exists p,
      __init__ path = Ok p
      /\ (ext_of (filename p) = EmptyString -> output_filename p = filename p +:+ ".cleaned"))
  /\ (forall dir name,
         dir = EmptyString \/ (exists d, dir = d +:+ "/") ->
         contains name "." = false -> contains name "/" = false ->
         ext_of (dir +:+ String "." name) = EmptyString)
  /\ __init__ "./.config" = Ok {| filename := "./.config";
                                  output_filename := "./.config.cleaned";
                                  lightweight_cleaning := false;
                                  in_place := false |}.
Proof.
  split; [|split; [|reflexivity]].
  - intros path. eexists. split; [apply init_eq|].
    cbn [filename output_filename]. unfold ext_of. intros H.
    now rewrite H, (splitext_no_ext _ H), app_nil_r_s.
  - intros dir name Hd Hn Hs. unfold ext_of.
    exact (f_equal snd (splitext_dotfile dir name Hd Hn Hs)).
Qed.

Lemma output_without_extension_witness :
  (exists p, __init__ "Makefile" = Ok p /\ output_filename p = "./Makefile.cleaned")
  /\ ext_of ("./" +:+ String "." "config") = EmptyString.
Proof.
  destruct output_without_extension as (Hgen & Hdot & _).
  split.
  - destruct (Hgen "Makefile") as (p & Hp & Ho).
    exists p. split; [exact Hp|].
    assert (filename p = "./Makefile") as Hf
      by (vm_compute in Hp; injection Hp as <-; reflexivity).
    rewrite Ho; rewrite Hf; reflexivity.
  - apply Hdot; [right; now exists "." | reflexivity | reflexivity].
Defined.

(** ** In-place editing *)

(** C4. A call of [set_edit_in_place] returns whenever the system does not
    refuse, the paths hold no NUL and one drawn name is unused. A call that
    returns leaves [in_place] true and [output_filename] naming a file that
    did not exist before the call, now exists and is empty, and whose
    extension is the extension of [filename]; so the output name carries the
    extension of the file name both as constructed and once in place. *)
Theorem set_edit_in_place_fresh_temp :
  (forall path, exists p, __init__ path = Ok p /\ ext_derived p)
  /\ (forall env self w,
         open_fault env = None ->
         contains (tmpdir env) NUL = false ->
         contains (filename self) NUL = false ->
         (exists name,
             In name (candidate_names env)
             /\ fs w !! join (tmpdir env) ("tmp" +:+ name +:+ ext_of (filename self))
                = None) ->
         exists self' w', set_edit_in_place env self w = (Ok tt, self', w'))
  /\ (forall env self w self' w',
         set_edit_in_place env self w = (Ok tt, self', w') ->
         in_place self' = true
         /\ filename self' = filename self
         /\ (exists draw,
                output_filename self'
                = join (tmpdir env)
                    ("tmp" +:+ choices characters draw +:+ ext_of (filename self)))
         /\ fs w !! output_filename self' = None
         /\ fs w' = <[output_filename self' := EmptyString]> (fs w)
         /\ ext_of (output_filename self') = ext_of (filename self')
         /\ ext_derived self').
Proof.
  split; [|split].
  - intros path. eexists. split; [apply init_eq|].
    unfold ext_derived, ext_of. cbn [filename output_filename]. split.
    + exists (fst (splitext (sanitize path)) +:+ ".cleaned").
      now rewrite app_assoc_s.
    + intros H. now rewrite (cleaned_keeps_ext _ H).
  - intros env self w. apply set_edit_in_place_total.
  - intros env self w self' w' H.
    apply set_edit_in_place_returns in H
      as ((draw & Hout) & Hf & _ & Hi & _ & Hfree & Hfs & _).
    assert (ext_of (output_filename self') = ext_of (filename self')) as Hext
      by (unfold ext_of; rewrite Hout, Hf; apply temp_path_ext).
    split; [assumption|]. split; [assumption|].
    split; [now exists draw|].
    repeat split; try assumption; [|intros _; exact Hext].
    exists (fst (splitext (output_filename self'))).
    rewrite <- Hext. unfold ext_of. symmetry. apply splitext_app.
Qed.

Lemma set_edit_in_place_fresh_temp_witness :
  exists self' w',
    set_edit_in_place Demo.env Demo.constructed Demo.world = (Ok tt, self', w')
    /\ in_place self' = true
    /\ fs Demo.world !! output_filename self' = None
    /\ ext_of (output_filename self') = ext_of (filename self').
Proof.
  destruct set_edit_in_place_fresh_temp as (_ & Hreturns & Hpost).
  destruct (Hreturns Demo.env Demo.constructed Demo.world)
    as (self' & w' & E).
  - reflexivity.
  - reflexivity.
  - reflexivity.
  - exists "temp456_". split; [vm_compute; left; reflexivity|].
    vm_compute. reflexivity.
  - exists self', w'. split; [exact E|].
    destruct (Hpost _ _ _ _ _ E) as (Hi & _ & _ & Hfree & _ & Hext & _).
    repeat split; assumption.
Defined.




(** C6, as stated, fails. Take the instance for ["photo.jpg"] once
    [set_edit_in_place] has run and the cleaned picture sits in the
    temporary file. After a swap that succeeded, a second end-of-life on the
    same instance is not a no-op: it asks for the move and for the removal
    again. After an end-of-life whose move and removal were both refused, a
    second one moves the temporary file over the original. *)
Lemma finalize_twice_not_noop :
  (__init__ "photo.jpg" = Ok Demo.constructed
   /\ fst (set_edit_in_place Demo.env Demo.constructed Demo.world)
      = (Ok tt, Demo.requested)
   /\ fs Demo.world_cleaned
      = <[ "/tmp/tmptemp456_.jpg" := "JFIF" ]>
          (fs (snd (set_edit_in_place Demo.env Demo.constructed Demo.world))))
  /\ (let w1 := snd (__del__ Demo.env Demo.requested Demo.world_cleaned) in
      let w2 := snd (__del__ Demo.env Demo.requested w1) in
      __del__ Demo.env Demo.requested w1 <> (Ok tt, w1)
      /\ In (SysMove "/tmp/tmptemp456_.jpg" "photo.jpg")
            (skipn (length (log w1)) (log w2))
      /\ In (SysRemove "/tmp/tmptemp456_.jpg")
            (skipn (length (log w1)) (log w2)))
  /\ (let w1 := snd (__del__ Demo.env_all_denied Demo.requested Demo.world_cleaned) in
      let w2 := snd (__del__ Demo.env Demo.requested w1) in
      fs w1 !! "photo.jpg" = Some "JFIF+comment"
      /\ fs w2 !! "photo.jpg" = Some "JFIF").
Proof.
  split; [|split].
  - repeat split; vm_compute; reflexivity.
  - cbv zeta. split; [|split].
    + intros H.
      apply (f_equal (fun r => length (log (snd r)))) in H.
      vm_compute in H. discriminate H.
    + vm_compute. tauto.
    + vm_compute. tauto.
  - cbv zeta. split; vm_compute; reflexivity.
Qed.

(** C6, amended. End-of-life has no once-only guard: every call on an
    in-place instance asks for the move. When the first call moved the
    temporary file onto a different path, a second call on the world the
    first one left returns normally, asks for the move and for the removal,
    reports both failures, and changes no file and no descriptor. *)
Theorem finalize_again_after_swap env1 env2 self w d w1 :
  in_place self = true ->
  output_filename self <> filename self ->
  shutil_move (move_fault env1) (output_filename self) (filename self) w = (Ok d, w1) ->
  __del__ env1 self w = (Ok tt, w1)
  /\ (exists rest,
         log (snd (__del__ env2 self w1))
         = log w1 ++ SysMove (output_filename self) (filename self) :: rest)
  /\ exists e,
       __del__ env2 self w1
       = (Ok tt,
          {| fs := fs w1;
             open_fds := open_fds w1;
             log := log w1 ++ [SysMove (output_filename self) (filename self);
                               not_cleaned_report self e;
                               SysRemove (output_filename self);
                               not_removed_report self
                                 (OSError ENOENT (output_filename self))] |}).
Proof.
  intros Hi Hne Hmove.
  split; [now apply (del_moved _ _ _ d)|].
  split; [now apply del_asks_move|].
  apply shutil_move_returns in Hmove as (Hn1 & Hn2 & c & Hsrc & Hd & ->).
  set (w1 := with_fs _ _).
  assert (fs w1 !! output_filename self = None) as Hgone.
  { unfold w1. cbn [fs with_fs].
    rewrite lookup_insert_ne; [apply lookup_delete_eq|].
    destruct Hd as [->|Hd]; congruence. }
  destruct (shutil_move_absent (move_fault env2) (output_filename self)
              (filename self) w1 Hn1 Hn2 Hgone) as (e & Hm2).
  exists e. rewrite (del_move_failed _ _ _ _ _ Hi Hm2).
  rewrite os_remove_absent by (cbn [fs record]; assumption).
  cbn [is_OSError]. unfold record. cbn [fs open_fds log].
  rewrite <- !app_assoc. reflexivity.
Qed.

Lemma finalize_again_after_swap_witness :
  exists w1 w2,
    __del__ Demo.env Demo.requested Demo.world_cleaned = (Ok tt, w1)
    /\ __del__ Demo.env_move_denied Demo.requested w1 = (Ok tt, w2)
    /\ fs w2 = fs w1.
Proof.
  pose (M := shutil_move (move_fault Demo.env) (output_filename Demo.requested)
               (filename Demo.requested) Demo.world_cleaned).
  assert (M = (Ok "photo.jpg", snd M)) as EM by (vm_compute; reflexivity).
  assert (in_place Demo.requested = true) as Hi by reflexivity.
  assert (output_filename Demo.requested <> filename Demo.requested) as Hne
    by (vm_compute; discriminate).
  destruct (finalize_again_after_swap Demo.env Demo.env_move_denied _ _ _ _
              Hi Hne EM) as (H1 & _ & e & H2).
  eexists _, _. split; [exact H1|]. split; [exact H2|]. reflexivity.
Defined.

(** ** What never changes *)

Lemma step_default self w o :
  in_place self = false ->
  never_requested [o] = true ->
  in_place (fst (step (self, w) o)) = false
  /\ snd (step (self, w) o) = externals [o] w.
Proof.
  intros Hi Ho. destruct o as [env|b|env|f]; cbn [step fst snd externals fold_left];
    try (split; [assumption | reflexivity]).
  - discriminate Ho.
  - now rewrite (del_default _ _ _ Hi).
Qed.

Lemma run_default ops self w :
  in_place self = false ->
  never_requested ops = true ->
  in_place (fst (run ops (self, w))) = false
  /\ snd (run ops (self, w)) = externals ops w.
Proof.
  revert self w. induction ops as [|o ops IH]; intros self w Hi Hn.
  - split; [assumption | reflexivity].
  - unfold never_requested in Hn. cbn [forallb] in Hn.
    apply andb_true_iff in Hn as [Ho Hn].
    destruct (step_default self w o Hi) as [Hi' Hw'].
    { unfold never_requested. cbn [forallb]. now rewrite Ho. }
    unfold run, externals in *. cbn [fold_left].
    destruct (step (self, w) o) as [self1 w1]. cbn [fst snd] in Hi', Hw'.
    cbn [fold_left] in Hw'. rewrite <- Hw'. now apply IH.
Qed.

(** C7. End-of-life on an instance that is not in place returns at once and
    leaves the world as it is: no move, no removal, no message. An instance
    is not in place as long as [set_edit_in_place] was not called, and over
    such a life the only changes to the world are those made from outside
    the contract. *)
Theorem del_without_request :
  (forall env self w, in_place self = false -> __del__ env self w = (Ok tt, w))
  /\ (forall path ops w env,
         never_requested ops = true ->
         exists p,
           __init__ path = Ok p
           /\ in_place (fst (run ops (p, w))) = false
           /\ snd (run ops (p, w)) = externals ops w
           /\ __del__ env (fst (run ops (p, w))) (snd (run ops (p, w)))
              = (Ok tt, snd (run ops (p, w)))).
Proof.
  split; [intros; now apply del_default|].
  intros path ops w env Hn. eexists. split; [apply init_eq|].
  match goal with |- context [run ops (?p, w)] => set (p0 := p) end.
  destruct (run_default ops p0 w eq_refl Hn) as [Hi Hw].
  repeat split; try assumption. now apply del_default.
Qed.

Lemma del_without_request_witness :
  __del__ Demo.env_all_denied Demo.constructed Demo.world_cleaned
  = (Ok tt, Demo.world_cleaned)
  /\ exists p,
       __init__ "photo.jpg" = Ok p
       /\ snd (run [SetLightweight true; Finalize Demo.env; Finalize Demo.env]
                 (p, Demo.world))
          = Demo.world.
Proof.
  destruct del_without_request as [H1 H2]. split.
  - apply H1. reflexivity.
  - destruct (H2 "photo.jpg"
                [SetLightweight true; Finalize Demo.env; Finalize Demo.env]
                Demo.world Demo.env eq_refl) as (p & Hp & _ & Hw & _).
    exists p. split; [exact Hp|]. rewrite Hw. reflexivity.
Defined.

(** C8. The stored file name is the one computed by the constructor after
    any sequence of [set_edit_in_place] calls (returning or raising),
    assignments of the lightweight flag, end-of-life calls and outside
    changes to the world. *)
Theorem filename_is_immutable (path : string) (ops : list op) (w : World) :
  exists p,
    __init__ path = Ok p
    /\ filename p = sanitize path
    /\ filename (fst (run ops (p, w))) = filename p.
Proof.
  eexists. split; [apply init_eq|]. split; [reflexivity|].
  apply run_filename.
Qed.

(** C9. After any sequence of operations the stored file name starts with a
    lowercase ASCII letter, an ASCII digit, ['.'] or ['/']; when the
    constructor's search failed it is ["./"] followed by the original path,
    character for character, and otherwise it is the original path. *)
Theorem filename_stays_safe (path : string) (ops : list op) (w : World) :
  exists p,
    __init__ path = Ok p
    /\ (exists c s, filename (fst (run ops (p, w))) = String c s /\ first_char_ok c)
    /\ (Re.search_anchored Re.safe_first path = None ->
        filename (fst (run ops (p, w))) = join "." path
        /\ filename (fst (run ops (p, w))) = "./" +:+ path)
    /\ (forall m, Re.search_anchored Re.safe_first path = Some m ->
                  filename (fst (run ops (p, w))) = path).
Proof.
  eexists. split; [apply init_eq|].
  rewrite run_filename. cbn [fst filename].
  split; [apply sanitize_starts_ok|]. split.
  - intros H. split; [unfold sanitize; now rewrite H | now apply sanitize_no_match].
  - intros m H. now apply (sanitize_match _ m).
Qed.

Lemma filename_stays_safe_witness :
  (exists p, __init__ "-rf *" = Ok p
             /\ filename (fst (run [SetEditInPlace Demo.env; Finalize Demo.env]
                                 (p, Demo.world)))
                = "./-rf *")
  /\ (exists p, __init__ "/etc/passwd" = Ok p
                /\ filename (fst (run [SetLightweight true] (p, Demo.world)))
                   = "/etc/passwd").
Proof.
  split.
  - destruct (filename_stays_safe "-rf *"
                [SetEditInPlace Demo.env; Finalize Demo.env] Demo.world)
      as (p & Hp & _ & Hre & _).
    exists p. split; [exact Hp|]. apply Hre. reflexivity.
  - destruct (filename_stays_safe "/etc/passwd" [SetLightweight true] Demo.world)
      as (p & Hp & _ & _ & Hk).
    exists p. split; [exact Hp|]. apply (Hk "/"). reflexivity.
Defined.

(* ===================================================================== *)
(** * Further properties of the code *)
(* ===================================================================== *)

(** ** More on strings and paths *)

Module MorePathFacts.
Import Str PosixPath StrFacts PathFacts InitFacts AbstractParser.

Lemma app_cancel_r a b c : a +:+ c = b +:+ c -> a = b.
Proof.
  intros H.
  assert (len a = len b) as Hl
    by (apply (f_equal len) in H; rewrite !len_app in H; lia).
  rewrite <- (slice_to_app a c), H, Hl. apply slice_to_app.
Qed.

(** Two ways of cutting a string at the last occurrence of a character
    agree. *)
Lemma split_at_last a t a' t' c :
  contains t c = false -> contains t' c = false ->
  a +:+ String c t = a' +:+ String c t' ->
  a = a' /\ t = t'.
Proof.
  intros Ht Ht' H.
  assert (len a = len a') as Hl.
  { rewrite <- (rfind_last a c t Ht), H. now apply rfind_last. }
  split.
  - rewrite <- (slice_to_app a (String c t)), H, Hl. apply slice_to_app.
  - assert (String c t = String c t') as E.
    { rewrite <- (slice_from_app a (String c t)), H, Hl. apply slice_from_app. }
    now injection E.
Qed.

(** What the constructor adds in front of a path. *)
Lemma sanitize_prefix path :
  exists pre, (pre = EmptyString \/ pre = "./") /\ sanitize path = pre +:+ path.
Proof.
  destruct (Re.search_anchored Re.safe_first path) as [m|] eqn:E.
  - exists EmptyString. split; [now left|]. now rewrite (sanitize_match _ _ E).
  - exists "./". split; [now right|]. now apply sanitize_no_match.
Qed.

Lemma is_dir_prefix_pre pre u :
  pre = EmptyString \/ pre = "./" -> is_dir_prefix u -> is_dir_prefix (pre +:+ u).
Proof.
  intros [->| ->] Hu; [exact Hu|].
  destruct Hu as [->|[d ->]].
  - right. now exists ".".
  - right. exists ("./" +:+ d). now rewrite app_assoc_s.
Qed.

(** The extension never holds a separator. *)
Lemma ext_no_sep p : contains (snd (splitext p)) sep = false.
Proof.
  destruct (splitext_cases p) as [H | (a & t & _ & _ & Hts & H)]; rewrite H;
    cbn [snd contains]; [reflexivity|].
  rewrite Hts. reflexivity.
Qed.

Lemma len_dots n : len (dots n) = Z.of_nat n.
Proof.
  induction n as [|n IH]; cbn [dots]; [reflexivity|].
  rewrite len_cons, IH. lia.
Qed.

Lemma dots_snoc n : dots (S n) = dots n +:+ String extsep EmptyString.
Proof.
  induction n as [|n IH]; [reflexivity|].
  cbn [dots] in *. rewrite app_cons_s. now rewrite <- IH.
Qed.

Lemma dots_add n m : dots (n + m) = dots n +:+ dots m.
Proof.
  induction n as [|n IH]; cbn [dots Nat.add]; [reflexivity|].
  now rewrite app_cons_s, IH.
Qed.

(** Any number of leading dots before a dot-free rest is no extension. *)
Lemma splitext_leading_dots u n name :
  is_dir_prefix u ->
  contains name extsep = false -> contains name sep = false ->
  splitext (u +:+ dots n +:+ name) = (u +:+ dots n +:+ name, EmptyString).
Proof.
  intros Hu Hd Hs. destruct n as [|n].
  - cbn [dots]. rewrite app_nil_l_s. now apply splitext_plain.
  - rewrite dots_snoc, app_assoc_s, app_cons_s, app_nil_l_s.
    rewrite <- (app_assoc_s u (dots n) (String extsep name)).
    unfold splitext.
    rewrite (rfind_last (u +:+ dots n) extsep name Hd).
    assert (rfind ((u +:+ dots n) +:+ String extsep name) sep = len u - 1) as ->.
    { rewrite rfind_app. cbn [contains]. rewrite Hs.
      replace (Ascii.eqb extsep sep) with false by reflexivity. cbn [orb].
      rewrite rfind_app.
      assert (contains (dots n) sep = false) as ->.
      { clear. induction n as [|n IH]; [reflexivity|]. cbn [dots contains].
        now rewrite IH. }
      destruct Hu as [->|[d ->]]; [reflexivity|].
      rewrite rfind_last by reflexivity. rewrite len_app, len_cons, len_nil. lia. }
    rewrite len_app, len_dots.
    destruct (_ >? _); [|now rewrite slice_to_0].
    apply skip_leading_dots_all_dots. intros i Hi.
    replace (len u - 1 + 1) with (len u) in Hi by lia.
    pose proof (len_nonneg u) as Lu.
    set (k := Z.to_nat (i - len u)).
    assert (n = (k + S (n - k - 1))%nat) as Hn by lia.
    rewrite Hn at 1. rewrite dots_add. cbn [dots].
    rewrite !app_assoc_s, app_cons_s.
    rewrite <- (app_assoc_s u (dots k)).
    replace i with (len (u +:+ dots k)) by (rewrite len_app, len_dots; lia).
    apply slice_char_app.
Qed.

End MorePathFacts.

Import MorePathFacts.

(** ** The constructor, further *)

Lemma first_char_app c a b : String c a +:+ b = String c (a +:+ b).
Proof. reflexivity. Qed.

(** A name that starts with a character of the class is stored as it is. *)
Lemma sanitize_fixed f :
  (exists c s, f = String c s /\ first_char_ok c) -> sanitize f = f.
Proof. intros (c & s & -> & H). now apply sanitize_kept. Qed.

Lemma sanitize_idempotent path : sanitize (sanitize path) = sanitize path.
Proof. apply sanitize_fixed, sanitize_starts_ok. Qed.

(** The output name starts with a character of the class as well. *)
Lemma cleaned_starts_ok path :
  exists c s,
    fst (splitext (sanitize path)) +:+ ".cleaned" +:+ snd (splitext (sanitize path))
    = String c s /\ first_char_ok c.
Proof.
  destruct (sanitize_starts_ok path) as (c & s & Hf & Hc).
  pose proof (splitext_app (sanitize path)) as Happ.
  destruct (fst (splitext (sanitize path))) as [|x stem] eqn:Hs.
  - exists "."%char. eexists. split; [reflexivity|].
    unfold first_char_ok. tauto.
  - rewrite Hf, first_char_app in Happ. injection Happ as -> _.
    exists c. eexists. split; [reflexivity | assumption].
Qed.

(** X1. The output name of a constructed instance is never its file name: it
    is eight characters longer. Writing the cleaned file in the default mode
    cannot overwrite the source. *)
Theorem output_differs_from_filename (path : string) :
  exists p,
    __init__ path = Ok p
    /\ len (output_filename p) = len (filename p) + 8
    /\ output_filename p <> filename p.
Proof.
  eexists. split; [apply init_eq|]. cbn [filename output_filename].
  assert (len (fst (splitext (sanitize path)) +:+ ".cleaned"
               +:+ snd (splitext (sanitize path)))
          = len (sanitize path) + 8) as Hl.
  { rewrite <- (splitext_app (sanitize path)) at 3.
    rewrite !len_app. change (len ".cleaned") with 8. lia. }
  split; [exact Hl|].
  intros Heq. rewrite Heq in Hl. lia.
Qed.

(** X2. Two constructed instances with the same output name have the same
    file name; instances with different file names never share an output
    name. *)
Theorem output_name_injective (path1 path2 : string) (p1 p2 : Instance) :
  __init__ path1 = Ok p1 ->
  __init__ path2 = Ok p2 ->
  (output_filename p1 = output_filename p2 -> filename p1 = filename p2)
  /\ (filename p1 <> filename p2 -> output_filename p1 <> output_filename p2).
Proof.
  intros H1 H2. rewrite init_eq in H1, H2.
  injection H1 as <-. injection H2 as <-. cbn [filename output_filename].
  assert (fst (splitext (sanitize path1)) +:+ ".cleaned" +:+ snd (splitext (sanitize path1))
          = fst (splitext (sanitize path2)) +:+ ".cleaned"
            +:+ snd (splitext (sanitize path2))
          -> sanitize path1 = sanitize path2) as Hinj.
  { generalize (sanitize path1) (sanitize path2). intros f1 f2.
    destruct (splitext_cases f1) as [E1 | (a1 & t1 & Hp1 & Hd1 & _ & E1)];
      destruct (splitext_cases f2) as [E2 | (a2 & t2 & Hp2 & Hd2 & _ & E2)];
      rewrite E1, E2; cbn [fst snd]; intros H.
    - rewrite !app_nil_r_s in H. now apply app_cancel_r in H.
    - rewrite app_nil_r_s in H.
      change (f1 +:+ ".cleaned") with (f1 +:+ String extsep "cleaned") in H.
      rewrite <- (app_assoc_s a2 ".cleaned") in H.
      apply split_at_last in H as [Hf Ht]; [|reflexivity|assumption].
      rewrite Hp2, <- Ht. exact Hf.
    - rewrite app_nil_r_s in H.
      change (f2 +:+ ".cleaned") with (f2 +:+ String extsep "cleaned") in H.
      rewrite <- (app_assoc_s a1 ".cleaned") in H.
      apply split_at_last in H as [Hf Ht]; [|assumption|reflexivity].
      rewrite Hp1, Ht. exact Hf.
    - rewrite <- (app_assoc_s a1 ".cleaned"), <- (app_assoc_s a2 ".cleaned") in H.
      apply split_at_last in H as [Hf Ht]; [|assumption|assumption].
      apply app_cancel_r in Hf. rewrite Hp1, Hp2. congruence. }
  split; [exact Hinj|].
  intros Hne Heq. apply Hne. now apply Hinj.
Qed.

Lemma output_name_injective_witness :
  (exists p1 p2, __init__ "X.jpg" = Ok p1 /\ __init__ "./X.jpg" = Ok p2
                 /\ filename p1 = filename p2)
  /\ (exists p1 p2, __init__ "a.cleaned" = Ok p1 /\ __init__ "a" = Ok p2
                    /\ output_filename p1 <> output_filename p2).
Proof.
  split.
  - eexists _, _. split; [reflexivity|]. split; [reflexivity|].
    refine (proj1 (output_name_injective "X.jpg" "./X.jpg" _ _ eq_refl eq_refl) _).
    reflexivity.
  - eexists _, _. split; [reflexivity|]. split; [reflexivity|].
    refine (proj2 (output_name_injective "a.cleaned" "a" _ _ eq_refl eq_refl) _).
    vm_compute. discriminate.
Defined.

(** X3. Constructing again from the file name of a constructed instance
    gives the same instance, and constructing from its output name stores
    that name unchanged: both names pass the first-character rule. *)
Theorem reopen_stores_same_name (path : string) (p : Instance) :
  __init__ path = Ok p ->
  __init__ (filename p) = Ok p
  /\ exists q, __init__ (output_filename p) = Ok q
               /\ filename q = output_filename p.
Proof.
  intros H. rewrite init_eq in H. injection H as <-.
  cbn [filename output_filename]. split.
  - rewrite init_eq, sanitize_idempotent. reflexivity.
  - eexists. split; [apply init_eq|]. cbn [filename].
    apply sanitize_fixed, cleaned_starts_ok.
Qed.

Lemma reopen_stores_same_name_witness :
  exists p q,
    __init__ "Holiday Photo.JPG" = Ok p
    /\ __init__ (filename p) = Ok p
    /\ __init__ (output_filename p) = Ok q
    /\ filename q = "./Holiday Photo.cleaned.JPG".
Proof.
  destruct (reopen_stores_same_name "Holiday Photo.JPG" _ eq_refl)
    as (Hsame & q & Hq & Hf).
  eexists _, q. split; [reflexivity|]. split; [exact Hsame|].
  split; [exact Hq|]. rewrite Hf. reflexivity.
Defined.

(** X4. The output name lies in the directory of the file name: the two
    names share everything up to and including the last separator, and
    neither has a separator after it. *)
Theorem output_in_same_directory (path : string) :
  exists p dir base base',
    __init__ path = Ok p
    /\ is_dir_prefix dir
    /\ filename p = dir +:+ base
    /\ output_filename p = dir +:+ base'
    /\ contains base sep = false
    /\ contains base' sep = false.
Proof.
  set (f := sanitize path).
  pose proof (ext_no_sep f) as He.
  pose proof (splitext_app f) as Happ.
  destruct (contains (fst (splitext f)) sep) eqn:Hc.
  - apply rfind_present in Hc.
    destruct (rfind_decomp _ _ Hc) as (a & t & Hs & Ht & _).
    exists {| filename := f;
              output_filename := fst (splitext f) +:+ ".cleaned" +:+ snd (splitext f);
              lightweight_cleaning := false; in_place := false |},
      (a +:+ String sep EmptyString),
      (t +:+ snd (splitext f)),
      (t +:+ ".cleaned" +:+ snd (splitext f)).
    split; [apply init_eq|]. cbn [filename output_filename].
    split; [right; now exists a|].
    split; [rewrite <- Happ at 1; rewrite Hs; now rewrite !app_assoc_s|].
    split; [rewrite Hs; now rewrite !app_assoc_s|].
    rewrite !contains_app, Ht, He. split; reflexivity.
  - exists {| filename := f;
              output_filename := fst (splitext f) +:+ ".cleaned" +:+ snd (splitext f);
              lightweight_cleaning := false; in_place := false |},
      EmptyString, f,
      (fst (splitext f) +:+ ".cleaned" +:+ snd (splitext f)).
    split; [apply init_eq|]. cbn [filename output_filename].
    split; [now left|].
    split; [reflexivity|]. split; [reflexivity|].
    split.
    + rewrite <- Happ, contains_app, Hc, He. reflexivity.
    + rewrite !contains_app, Hc, He. reflexivity.
Qed.

(** X5. When the base name holds a character other than a dot and then a
    last dot followed by a rest without dots, [".cleaned"] is inserted right
    before that last dot, whatever dots and separators come earlier; the
    extension of the output is that last dot and its rest. *)
Theorem cleaned_goes_before_last_dot (u : string) (x : ascii) (v t : string) :
  x <> "."%char ->
  contains (String x v) sep = false ->
  contains t extsep = false ->
  contains t sep = false ->
  exists p pre,
    __init__ (u +:+ String x v +:+ String "." t) = Ok p
    /\ (pre = EmptyString \/ pre = "./")
    /\ filename p = pre +:+ u +:+ String x v +:+ String "." t
    /\ output_filename p = pre +:+ u +:+ String x v +:+ ".cleaned" +:+ String "." t
    /\ ext_of (output_filename p) = String "." t.
Proof.
  intros Hx Hv Htd Hts.
  destruct (sanitize_prefix (u +:+ String x v +:+ String "." t))
    as (pre & Hpre & Hsan).
  assert (splitext (sanitize (u +:+ String x v +:+ String "." t))
          = ((pre +:+ u) +:+ String x v, String "." t)) as Hsplit.
  { rewrite Hsan, <- (app_assoc_s pre u). now apply splitext_ext. }
  eexists. exists pre. split; [apply init_eq|]. cbn [filename output_filename].
  rewrite Hsplit. cbn [fst snd].
  split; [assumption|]. split; [exact Hsan|].
  split; [now rewrite !app_assoc_s|].
  unfold ext_of.
  replace (((pre +:+ u) +:+ String x v) +:+ ".cleaned" +:+ String "." t)
    with (((pre +:+ u) +:+ String x v +:+ ".") +:+ String "c" "leaned"
          +:+ String "." t)
    by (now rewrite !app_assoc_s).
  rewrite splitext_ext; [reflexivity | discriminate | reflexivity | | ]; assumption.
Qed.

Lemma cleaned_goes_before_last_dot_witness :
  (exists p, __init__ "./tests/data/clean.pdf" = Ok p
             /\ output_filename p = "./tests/data/clean.cleaned.pdf")
  /\ (exists p, __init__ "Backup.2018/notes.tar.gz" = Ok p
                /\ output_filename p = "./Backup.2018/notes.tar.cleaned.gz").
Proof.
  split.
  - destruct (cleaned_goes_before_last_dot "./tests/data/" "c" "lean" "pdf")
      as (p & pre & Hp & _ & _ & Ho & _);
      [discriminate | reflexivity | reflexivity | reflexivity |].
    exists p. split; [exact Hp|].
    vm_compute in Hp. injection Hp as <-. reflexivity.
  - destruct (cleaned_goes_before_last_dot "Backup.2018/" "n" "otes.tar" "gz")
      as (p & pre & Hp & _ & _ & Ho & _);
      [discriminate | reflexivity | reflexivity | reflexivity |].
    exists p. split; [exact Hp|].
    vm_compute in Hp. injection Hp as <-. reflexivity.
Defined.

(** X6. A base name made of any number of leading dots and a rest without
    dots has no extension, whatever dots the directories before it hold:
    the output is the file name followed by [".cleaned"]. *)
Theorem leading_dots_are_no_extension (dir : string) (n : nat) (name : string) :
  is_dir_prefix dir ->
  contains name extsep = false ->
  contains name sep = false ->
  exists p,
    __init__ (dir +:+ dots n +:+ name) = Ok p
    /\ ext_of (filename p) = EmptyString
    /\ output_filename p = filename p +:+ ".cleaned".
Proof.
  intros Hdir Hd Hs.
  destruct (sanitize_prefix (dir +:+ dots n +:+ name)) as (pre & Hpre & Hsan).
  assert (splitext (sanitize (dir +:+ dots n +:+ name))
          = (sanitize (dir +:+ dots n +:+ name), EmptyString)) as Hsplit.
  { rewrite Hsan, <- (app_assoc_s pre dir).
    apply splitext_leading_dots; [now apply is_dir_prefix_pre | assumption..]. }
  eexists. split; [apply init_eq|]. cbn [filename output_filename].
  unfold ext_of. rewrite Hsplit. cbn [fst snd].
  split; [reflexivity|]. now rewrite app_nil_r_s.
Qed.

Lemma leading_dots_are_no_extension_witness :
  (exists p, __init__ ("conf.d/" +:+ dots 2 +:+ "hidden") = Ok p
             /\ output_filename p = "conf.d/..hidden.cleaned")
  /\ (exists p, __init__ ("pictures.2018/" +:+ dots 0 +:+ EmptyString) = Ok p
                /\ output_filename p = "pictures.2018/.cleaned").
Proof.
  split.
  - destruct (leading_dots_are_no_extension "conf.d/" 2 "hidden")
      as (p & Hp & _ & Ho);
      [right; now exists "conf.d" | reflexivity | reflexivity |].
    exists p. split; [exact Hp|]. rewrite Ho.
    vm_compute in Hp. injection Hp as <-. reflexivity.
  - destruct (leading_dots_are_no_extension "pictures.2018/" 0 EmptyString)
      as (p & Hp & _ & Ho);
      [right; now exists "pictures.2018" | reflexivity | reflexivity |].
    exists p. split; [exact Hp|]. rewrite Ho.
    vm_compute in Hp. injection Hp as <-. reflexivity.
Defined.

(** X7. When the stored name has no extension and its base name holds a
    character other than a dot, the output name splits into the stored name
    and the extension [".cleaned"]. *)
Theorem extensionless_output_has_cleaned_extension
    (u : string) (x : ascii) (v : string) (p : Instance) :
  __init__ (u +:+ String x v) = Ok p ->
  x <> "."%char ->
  contains (String x v) sep = false ->
  ext_of (filename p) = EmptyString ->
  splitext (output_filename p) = (filename p, ".cleaned").
Proof.
  intros Hp Hx Hv Hext. rewrite init_eq in Hp. injection Hp as <-.
  cbn [filename output_filename] in *. unfold ext_of in Hext.
  rewrite Hext, (splitext_no_ext _ Hext), app_nil_r_s.
  destruct (sanitize_prefix (u +:+ String x v)) as (pre & _ & ->).
  rewrite <- (app_assoc_s pre u).
  change (((pre +:+ u) +:+ String x v) +:+ ".cleaned")
    with (((pre +:+ u) +:+ String x v) +:+ String extsep "cleaned").
  rewrite app_assoc_s.
  now apply splitext_ext.
Qed.

Lemma extensionless_output_has_cleaned_extension_witness :
  exists p, __init__ "docs.v2/README" = Ok p
            /\ splitext (output_filename p) = ("docs.v2/README", ".cleaned").
Proof.
  eexists. split; [reflexivity|].
  refine (extensionless_output_has_cleaned_extension "docs.v2/" "R" "EADME" _
            eq_refl _ _ _);
    [discriminate | reflexivity | reflexivity].
Defined.

(** ** End-of-life and in-place editing, further *)

(** Whatever [os.remove] answers, it leaves the descriptors alone, adds its
    call to the log, and keeps every other path. *)
Lemma os_remove_frame fault path w :
  open_fds (snd (os_remove fault path w)) = open_fds w
  /\ log (snd (os_remove fault path w)) = log w ++ [SysRemove path]
  /\ forall k, k <> path -> fs (snd (os_remove fault path w)) !! k = fs w !! k.
Proof.
  unfold os_remove. destruct (contains path NUL); [repeat split|].
  rewrite fs_record. destruct (fs w !! path); [|repeat split].
  destruct fault; cbn [snd]; [repeat split|].
  repeat split. intros k Hk. cbn [fs with_fs record]. now apply lookup_delete_ne.
Qed.

(** Whatever end-of-life does, a path other than the file name and the
    output name keeps its content, provided it is not the path inside a
    directory that the move creates. *)
Lemma del_keeps (env : Env) (self : Instance) (w : World) (p : string) :
  p <> filename self -> p <> output_filename self ->
  p <> join (filename self) (_basename (output_filename self))
  \/ is_Some (fs w !! p) ->
  fs (snd (__del__ env self w)) !! p = fs w !! p.
Proof.
  intros Hf Ho Hrd.
  destruct (in_place self) eqn:Hi.
  2:{ now rewrite (del_default _ _ _ Hi). }
  pose proof (shutil_move_keeps (move_fault env) (output_filename self)
                (filename self) w p Ho Hf Hrd) as Hk.
  destruct (shutil_move (move_fault env) (output_filename self) (filename self) w)
    as [[d|e] w1] eqn:Hm; cbn [snd] in Hk.
  - now rewrite (del_moved _ _ _ _ _ Hi Hm).
  - rewrite (del_move_failed _ _ _ _ _ Hi Hm).
    destruct (os_remove_frame (remove_fault env) (output_filename self)
                (record (not_cleaned_report self e) w1)) as (_ & _ & Hfs).
    destruct (os_remove (remove_fault env) (output_filename self)
                (record (not_cleaned_report self e) w1)) as [[[]|e2] w3];
      cbn [snd] in Hfs.
    + cbn [snd]. now rewrite Hfs.
    + destruct (is_OSError e2); cbn [snd fs record]; now rewrite Hfs.
Qed.

(** X9. A call of [set_edit_in_place] that returns keeps every file that
    existed with its content and leaves the open descriptors as they were:
    the descriptor of the temporary file is closed again. A call whose
    [mkstemp] raises, raises that exception, leaves the instance as it was
    (the assignment of the pair did not happen), creates no file and leaves
    the descriptors as they were. *)
Theorem set_edit_in_place_keeps_world (env : Env) (self : Instance) (w : World) :
  (forall self' w',
      set_edit_in_place env self w = (Ok tt, self', w') ->
      open_fds w' = open_fds w
      /\ forall path content,
           fs w !! path = Some content -> fs w' !! path = Some content)
  /\ (forall e w1,
         mkstemp env (ext_of (filename self)) w = (Raise e, w1) ->
         set_edit_in_place env self w = (Raise e, self, w1)
         /\ fs w1 = fs w
         /\ open_fds w1 = open_fds w).
Proof.
  split.
  - intros self' w' H.
    apply set_edit_in_place_returns in H
      as (_ & _ & _ & _ & _ & Hfree & Hfs & Hfd).
    split; [exact Hfd|].
    intros path content Hp. rewrite Hfs.
    rewrite lookup_insert_ne; [exact Hp | congruence].
  - intros e w1 H. unfold set_edit_in_place, ext_of in *.
    destruct (splitext (filename self)) as [stem ext]. cbn [snd] in H.
    rewrite H. split; [reflexivity|].
    unfold mkstemp in H. now apply mkstemp_inner_raises in H.
Qed.

Lemma set_edit_in_place_keeps_world_witness :
  (exists self' w',
      set_edit_in_place Demo.env Demo.constructed Demo.world = (Ok tt, self', w')
      /\ fs w' !! "photo.jpg" = Some "JFIF+comment"
      /\ open_fds w' = open_fds Demo.world)
  /\ (exists e w1,
         set_edit_in_place Sample.env_no_draw Demo.constructed Demo.world
         = (Raise e, Demo.constructed, w1)
         /\ fs w1 = fs Demo.world).
Proof.
  split.
  - destruct (set_edit_in_place_keeps_world Demo.env Demo.constructed Demo.world)
      as [Hret _].
    pose (X := set_edit_in_place Demo.env Demo.constructed Demo.world).
    assert (X = (Ok tt, snd (fst X), snd X)) as E by (vm_compute; reflexivity).
    destruct (Hret _ _ E) as (Hfd & Hkeep).
    exists (snd (fst X)), (snd X). split; [exact E|].
    split; [apply Hkeep; vm_compute; reflexivity | exact Hfd].
  - destruct (set_edit_in_place_keeps_world Sample.env_no_draw Demo.constructed
                Demo.world) as [_ Hraise].
    pose (M := mkstemp Sample.env_no_draw (ext_of (filename Demo.constructed))
                 Demo.world).
    assert (M = (Raise (OSError EEXIST "No usable temporary file name found"),
                 snd M)) as E by (vm_compute; reflexivity).
    destruct (Hraise _ _ E) as (Hset & Hfs & _).
    eexists _, (snd M). split; [exact Hset | exact Hfs].
Defined.

(** The swap, when the temporary path was free before the request and holds
    [c] now, the file name is not a directory and the rename is not
    refused: the net change to the files is [filename := c]. *)
Lemma swap_net_effect env self files w c :
  in_place self = true ->
  contains (output_filename self) NUL = false ->
  contains (filename self) NUL = false ->
  dst_is_dir (move_fault env) = false ->
  rename_fault (move_fault env) = None ->
  files !! output_filename self = None ->
  fs w = <[output_filename self := c]> files ->
  exists w',
    __del__ env self w = (Ok tt, w')
    /\ fs w' = <[filename self := c]> files
    /\ open_fds w' = open_fds w
    /\ log w' = log w ++ [SysMove (output_filename self) (filename self)].
Proof.
  intros Hi Hno Hnf Hdir Hren Hfree Hfs.
  assert (shutil_move (move_fault env) (output_filename self) (filename self) w
          = (Ok (filename self),
             with_fs (<[filename self := c]> (delete (output_filename self) (fs w)))
               (record (SysMove (output_filename self) (filename self)) w))) as Hm.
  { unfold shutil_move. rewrite Hno, Hnf, Hdir. cbn [orb].
    unfold move_file. rewrite fs_record, Hfs, lookup_insert_eq, Hren. reflexivity. }
  eexists. split; [exact (del_moved _ _ _ _ _ Hi Hm)|].
  cbn [fs open_fds log with_fs record]. repeat split.
  rewrite Hfs. apply map_eq. intros k.
  destruct (decide (k = filename self)) as [->|Hk].
  - now rewrite !lookup_insert_eq.
  - rewrite !(lookup_insert_ne _ (filename self)) by congruence.
    destruct (decide (k = output_filename self)) as [->|Hk2].
    + now rewrite lookup_delete_eq, Hfree.
    + rewrite lookup_delete_ne by congruence.
      now rewrite lookup_insert_ne by congruence.
Qed.

(** X10. The in-place protocol as a whole, for a file name that is not a
    directory: after a request that returned, once the handler has written
    [c] to the temporary file, an end-of-life whose rename is not refused
    returns normally and the files are those from before the request with
    [filename] holding [c]: the temporary file is gone, nothing else
    changed, no descriptor is left open. *)
Theorem in_place_flow_replaces_content
    (env : Env) (self : Instance) (w : World) self' w1 (c : string) (env2 : Env) :
  set_edit_in_place env self w = (Ok tt, self', w1) ->
  contains (filename self) NUL = false ->
  dst_is_dir (move_fault env2) = false ->
  rename_fault (move_fault env2) = None ->
  exists w3,
    __del__ env2 self' (write_file (output_filename self') c w1) = (Ok tt, w3)
    /\ fs w3 = <[filename self := c]> (fs w)
    /\ open_fds w3 = open_fds w.
Proof.
  intros Hset Hnul Hdir Hren.
  apply set_edit_in_place_returns in Hset
    as (_ & Hf & _ & Hi & Hno & Hfree & Hfs & Hfd).
  destruct (swap_net_effect env2 self' (fs w)
              (write_file (output_filename self') c w1) c)
    as (w3 & Hd & Hfs3 & Hfd3 & _); try assumption.
  - now rewrite Hf.
  - unfold write_file. cbn [fs with_fs]. rewrite Hfs. apply insert_insert_eq.
  - exists w3. split; [exact Hd|]. split.
    + now rewrite Hfs3, Hf.
    + rewrite Hfd3. unfold write_file. cbn [open_fds with_fs]. exact Hfd.
Qed.

Lemma in_place_flow_replaces_content_witness :
  exists self' w1 w3,
    set_edit_in_place Demo.env Demo.constructed Demo.world = (Ok tt, self', w1)
    /\ __del__ Demo.env self' (write_file (output_filename self') "JFIF" w1)
       = (Ok tt, w3)
    /\ fs w3 = {[ "photo.jpg" := "JFIF" ]}.
Proof.
  pose (X := set_edit_in_place Demo.env Demo.constructed Demo.world).
  assert (X = (Ok tt, snd (fst X), snd X)) as E by (vm_compute; reflexivity).
  destruct (in_place_flow_replaces_content _ _ _ _ _ "JFIF" Demo.env E)
    as (w3 & Hd & Hfs & _); [reflexivity | reflexivity | reflexivity |].
  exists (snd (fst X)), (snd X), w3. split; [exact E|]. split; [exact Hd|].
  rewrite Hfs. vm_compute. reflexivity.
Defined.

(** X11. End-of-life does not look at whether anything was cleaned: for a
    file name that is not a directory, after a request that returned, if
    nothing wrote the temporary file and the rename is not refused, the
    file at [filename] ends up empty. *)
Theorem unwritten_temp_empties_original
    (env : Env) (self : Instance) (w : World) self' w1 (env2 : Env) :
  set_edit_in_place env self w = (Ok tt, self', w1) ->
  contains (filename self) NUL = false ->
  dst_is_dir (move_fault env2) = false ->
  rename_fault (move_fault env2) = None ->
  exists w3,
    __del__ env2 self' w1 = (Ok tt, w3)
    /\ fs w3 !! filename self = Some EmptyString
    /\ fs w3 = <[filename self := EmptyString]> (fs w).
Proof.
  intros Hset Hnul Hdir Hren.
  apply set_edit_in_place_returns in Hset
    as (_ & Hf & _ & Hi & Hno & Hfree & Hfs & _).
  destruct (swap_net_effect env2 self' (fs w) w1 EmptyString)
    as (w3 & Hd & Hfs3 & _); try assumption.
  - now rewrite Hf.
  - exists w3. split; [exact Hd|]. rewrite Hfs3, Hf.
    split; [apply lookup_insert_eq | reflexivity].
Qed.

Lemma unwritten_temp_empties_original_witness :
  exists self' w1 w3,
    set_edit_in_place Demo.env Demo.constructed Demo.world = (Ok tt, self', w1)
    /\ fs Demo.world !! "photo.jpg" = Some "JFIF+comment"
    /\ __del__ Demo.env self' w1 = (Ok tt, w3)
    /\ fs w3 !! "photo.jpg" = Some EmptyString.
Proof.
  pose (X := set_edit_in_place Demo.env Demo.constructed Demo.world).
  assert (X = (Ok tt, snd (fst X), snd X)) as E by (vm_compute; reflexivity).
  destruct (unwritten_temp_empties_original _ _ _ _ _ Demo.env E)
    as (w3 & Hd & Hempty & _); [reflexivity | reflexivity | reflexivity |].
  exists (snd (fst X)), (snd X), w3. split; [exact E|].
  split; [vm_compute; reflexivity|]. split; [exact Hd | exact Hempty].
Defined.

(** X12. A second request on the same instance takes another temporary
    path, and the first temporary file is never removed: it is still there,
    empty, after end-of-life, whatever the system answers. *)
Theorem second_request_orphans_first_temp
    (env1 env2 : Env) (self : Instance) (w : World) s1 w1 s2 w2 :
  set_edit_in_place env1 self w = (Ok tt, s1, w1) ->
  set_edit_in_place env2 s1 w1 = (Ok tt, s2, w2) ->
  is_Some (fs w !! filename self) ->
  output_filename s2 <> output_filename s1
  /\ forall env3,
       fs (snd (__del__ env3 s2 w2)) !! output_filename s1 = Some EmptyString.
Proof.
  intros H1 H2 Hex.
  apply set_edit_in_place_returns in H1
    as (_ & Hf1 & _ & _ & _ & Hfree1 & Hfs1 & _).
  apply set_edit_in_place_returns in H2
    as (_ & Hf2 & _ & _ & _ & Hfree2 & Hfs2 & _).
  assert (fs w1 !! output_filename s1 = Some EmptyString) as Hthere
    by (rewrite Hfs1; apply lookup_insert_eq).
  assert (output_filename s2 <> output_filename s1) as Hne
    by (intros Heq; rewrite Heq, Hthere in Hfree2; discriminate).
  assert (output_filename s1 <> filename s2) as Hnf.
  { intros Heq. rewrite Heq, Hf2, Hf1 in Hfree1. rewrite Hfree1 in Hex.
    destruct Hex as [? Hex]. discriminate Hex. }
  assert (fs w2 !! output_filename s1 = Some EmptyString) as Hthere2
    by (rewrite Hfs2, lookup_insert_ne by congruence; exact Hthere).
  split; [exact Hne|]. intros env3.
  rewrite del_keeps; [exact Hthere2 | exact Hnf | congruence |].
  right. rewrite Hthere2. now eexists.
Qed.

Lemma second_request_orphans_first_temp_witness :
  exists s1 w1 s2 w2,
    set_edit_in_place Sample.env_two_draws Demo.constructed Demo.world
    = (Ok tt, s1, w1)
    /\ set_edit_in_place Sample.env_two_draws s1 w1 = (Ok tt, s2, w2)
    /\ output_filename s1 = "/tmp/tmptemp456_.jpg"
    /\ output_filename s2 = "/tmp/tmpabcdefgh.jpg"
    /\ fs (snd (__del__ Demo.env s2 w2)) !! "/tmp/tmptemp456_.jpg"
       = Some EmptyString.
Proof.
  pose (X := set_edit_in_place Sample.env_two_draws Demo.constructed Demo.world).
  assert (X = (Ok tt, snd (fst X), snd X)) as E1 by (vm_compute; reflexivity).
  pose (Y := set_edit_in_place Sample.env_two_draws (snd (fst X)) (snd X)).
  assert (Y = (Ok tt, snd (fst Y), snd Y)) as E2 by (vm_compute; reflexivity).
  assert (is_Some (fs Demo.world !! filename Demo.constructed)) as Hex
    by (vm_compute; eexists; reflexivity).
  destruct (second_request_orphans_first_temp _ _ _ _ _ _ _ _ E1 E2 Hex)
    as [_ Hleft].
  exists (snd (fst X)), (snd X), (snd (fst Y)), (snd Y).
  split; [exact E1|]. split; [exact E2|].
  split; [vm_compute; reflexivity|]. split; [vm_compute; reflexivity|].
  exact (Hleft Demo.env).
Defined.

(** X13. After a move that raised, once the report is printed and when
    the removal is not refused, no temporary file is left: the files are
    those the failed move left, without the temporary path, whether or not
    that file existed; in particular the file at [filename] is as the failed
    move left it. *)
Theorem failed_move_leaves_no_temp
    (env : Env) (self : Instance) (w : World) (e : exn) (w1 w2 : World) :
  in_place self = true ->
  contains (output_filename self) NUL = false ->
  output_filename self <> filename self ->
  remove_fault env = None ->
  shutil_move (move_fault env) (output_filename self) (filename self) w
  = (Raise e, w1) ->
  print (not_cleaned_args self e) w1 = (Ok tt, w2) ->
  fs (snd (__del__ env self w)) = delete (output_filename self) (fs w1)
  /\ fs (snd (__del__ env self w)) !! output_filename self = None
  /\ fs (snd (__del__ env self w)) !! filename self = fs w1 !! filename self.
Proof.
  intros Hi Hnul Hne Hrf Hm _.
  rewrite (del_move_failed _ _ _ _ _ Hi Hm).
  unfold os_remove. rewrite Hnul, Hrf, !fs_record.
  destruct (fs w1 !! output_filename self) as [c|] eqn:Hc.
  - cbn [snd fs with_fs record].
    split; [reflexivity|]. split; [apply lookup_delete_eq|].
    now apply lookup_delete_ne.
  - cbn [is_OSError snd fs record].
    split; [symmetry; now apply delete_id|]. split; [exact Hc | reflexivity].
Qed.

Lemma failed_move_leaves_no_temp_witness :
  fs (snd (__del__ Demo.env_move_denied Demo.requested Demo.world_cleaned))
  = {[ "photo.jpg" := "JFIF+comment" ]}
  /\ fs (snd (__del__ Sample.env_disk_full Demo.requested Demo.world_cleaned))
     = {[ "photo.jpg" := EmptyString ]}.
Proof.
  assert (output_filename Demo.requested <> filename Demo.requested) as Hne
    by (vm_compute; discriminate).
  split.
  - pose (M := shutil_move (move_fault Demo.env_move_denied)
                 (output_filename Demo.requested) (filename Demo.requested)
                 Demo.world_cleaned).
    assert (M = (Raise (OSError EACCES "photo.jpg"), snd M)) as EM
      by (vm_compute; reflexivity).
    destruct (failed_move_leaves_no_temp Demo.env_move_denied Demo.requested
                Demo.world_cleaned _ _ _ eq_refl eq_refl Hne eq_refl EM eq_refl)
      as (Hfs & _).
    rewrite Hfs. vm_compute. reflexivity.
  - pose (M := shutil_move (move_fault Sample.env_disk_full)
                 (output_filename Demo.requested) (filename Demo.requested)
                 Demo.world_cleaned).
    assert (M = (Raise (OSError ENOSPC "photo.jpg"), snd M)) as EM
      by (vm_compute; reflexivity).
    destruct (failed_move_leaves_no_temp Sample.env_disk_full Demo.requested
                Demo.world_cleaned _ _ _ eq_refl eq_refl Hne eq_refl EM eq_refl)
      as (Hfs & _).
    rewrite Hfs. vm_compute. reflexivity.
Defined.

(** ** Lives of an instance, further *)

Lemma step_keeps_in_place st o :
  in_place (fst st) = true -> in_place (fst (step st o)) = true.
Proof.
  destruct st as [self w]. cbn [fst]. intros Hi.
  destruct o as [env|b|env|f]; cbn [step fst]; try assumption.
  destruct (set_edit_in_place env self w) as [[[[]|e] self'] w'] eqn:E; cbn [fst].
  - now apply set_edit_in_place_returns in E as (_ & _ & _ & H & _).
  - now apply set_edit_in_place_raises in E as (-> & _).
Qed.

(** X14. No operation takes an instance out of in-place mode: once
    [in_place] is true it stays true through requests (returning or
    raising), flag assignments, end-of-life calls and outside changes. *)
Theorem in_place_is_never_reset (ops : list op) (st : Instance * World) :
  in_place (fst st) = true -> in_place (fst (run ops st)) = true.
Proof.
  unfold run. revert st. induction ops as [|o ops IH]; intros st Hi;
    cbn [fold_left]; [assumption|].
  apply IH. now apply step_keeps_in_place.
Qed.

Lemma in_place_is_never_reset_witness :
  in_place (fst (run [Finalize Demo.env; SetLightweight true;
                      SetEditInPlace Sample.env_no_draw; Finalize Demo.env]
                   (Demo.requested, Demo.world_cleaned))) = true.
Proof.
  apply in_place_is_never_reset. reflexivity.
Defined.

Lemma del_same_but_flag env p q w :
  same_but_flag p q -> __del__ env p w = __del__ env q w.
Proof.
  destruct p, q. unfold same_but_flag. cbn [filename output_filename in_place].
  intros (-> & -> & ->). reflexivity.
Qed.

Lemma set_edit_in_place_same_but_flag env p q w :
  same_but_flag p q ->
  fst (fst (set_edit_in_place env p w)) = fst (fst (set_edit_in_place env q w))
  /\ snd (set_edit_in_place env p w) = snd (set_edit_in_place env q w)
  /\ same_but_flag (snd (fst (set_edit_in_place env p w)))
                   (snd (fst (set_edit_in_place env q w))).
Proof.
  intros (Hf & Ho & Hi). unfold set_edit_in_place. rewrite Hf.
  destruct (splitext (filename q)) as [stem ext].
  destruct (mkstemp env ext w) as [[[fd path]|e] w1].
  - destruct (os_close fd w1) as [[[]|e] w2]; cbn [fst snd];
      repeat split; reflexivity.
  - cbn [fst snd]. repeat split; assumption.
Qed.

(** X15. The contract never reads the lightweight flag: leaving the flag
    assignments out of a life changes neither the world it ends in nor the
    file name, output name and in-place mode of the instance. *)
Theorem lightweight_flag_is_not_read (ops : list op) (p q : Instance) (w : World) :
  same_but_flag p q ->
  same_but_flag (fst (run ops (p, w))) (fst (run (without_flag_ops ops) (q, w)))
  /\ snd (run ops (p, w)) = snd (run (without_flag_ops ops) (q, w)).
Proof.
  unfold run, without_flag_ops. revert p q w.
  induction ops as [|o ops IH]; intros p q w H.
  - split; [exact H | reflexivity].
  - destruct o as [env|b|env|f]; cbn [List.filter fold_left step].
    + destruct (set_edit_in_place_same_but_flag env p q w H) as (_ & Hw & Hs).
      destruct (set_edit_in_place env p w) as [[r1 p1] w1].
      destruct (set_edit_in_place env q w) as [[r2 q1] w2].
      cbn [fst snd] in Hw, Hs. subst w2. now apply IH.
    + apply IH. destruct H as (Hf & Ho & Hi). repeat split; assumption.
    + rewrite (del_same_but_flag env p q w H). now apply IH.
    + now apply IH.
Qed.

Lemma lightweight_flag_is_not_read_witness :
  fs (snd (run [SetLightweight true; SetEditInPlace Demo.env;
                SetLightweight false; Finalize Demo.env]
             (Demo.constructed, Demo.world)))
  = fs (snd (run [SetEditInPlace Demo.env; Finalize Demo.env]
               (Demo.constructed, Demo.world))).
Proof.
  destruct (lightweight_flag_is_not_read
              [SetLightweight true; SetEditInPlace Demo.env;
               SetLightweight false; Finalize Demo.env]
              Demo.constructed Demo.constructed Demo.world) as [_ H].
  - repeat split.
  - rewrite H. reflexivity.
Defined.
